(** * API-Stress-Lab: the load-generation engine of [load_test.py]

    A shallow embedding of [percentile], [worker] and [run_load_test] and the
    properties of the engine's specification.

    Numbers.  Python's [float] is idealised as an exact rational [Q]: latencies,
    clock readings and percentile ranks are finite numbers and arithmetic does
    not round.  Python's [int] is [Z]; lengths and counters that start at zero
    and only grow are [nat].  Where a property depends on what [int()] does
    with an infinite or NaN float, [percentile] is embedded a second time, on
    binary64 floats ([percentile64]).

    Concurrency.  The program runs on one asyncio event loop, so a coroutine is
    only interleaved with the others where it awaits.  A run is therefore a
    sequence of atomic steps, each the code between two awaits of one worker,
    chosen by the environment (event loop, network, clocks). *)

From Stdlib Require Import QArith Qround Qminmax Lqa ZArith List Lia Sorted Permutation.
From stdpp Require Import base option list strings pretty gmap.
From Stdlib Require Import PrimFloat SpecFloat FloatOps.
From Stdlib Require Uint63.
Import ListNotations.

Local Open Scope Z_scope.

(** ** Python values and built-ins *)

(** The result of an expression that may raise. *)
Inductive pyresult (A : Type) : Type :=
| Ok (v : A)
| IndexError.
Arguments Ok {A} v.
Arguments IndexError {A}.

Definition bind {A B : Type} (r : pyresult A) (k : A -> pyresult B) : pyresult B :=
  match r with
  | Ok v => k v
  | IndexError => IndexError
  end.

Notation "'let*' x ':=' r 'in' k" := (bind r (fun x => k))
  (at level 10, x name, r at level 100, k at level 200).

(** [returns r v]: the call returned normally a number equal to [v]. *)
Definition returns (r : pyresult Q) (v : Q) : Prop :=
  match r with
  | Ok x => Qeq x v
  | IndexError => False
  end.

(** [int(x)] on a float: truncation towards zero. *)
Definition py_int (x : Q) : Z := Z.quot (Qnum x) (Zpos (Qden x)).

(** [l[i]]: a negative index counts from the end, anything outside
    [-len(l) .. len(l)-1] raises IndexError. *)
Definition py_getitem {A : Type} (l : list A) (i : Z) : pyresult A :=
  let n := Z.of_nat (length l) in
  let j := if i <? 0 then i + n else i in
  if (j <? 0) || (n <=? j) then IndexError
  else match nth_error l (Z.to_nat j) with
       | Some v => Ok v
       | None => IndexError
       end.

(** [sorted(l)] on floats: a stable ascending sort. *)
Fixpoint insert_sorted (x : Q) (l : list Q) : list Q :=
  match l with
  | [] => [x]
  | y :: l' => if Qle_bool x y then x :: y :: l' else y :: insert_sorted x l'
  end.

Fixpoint sorted (l : list Q) : list Q :=
  match l with
  | [] => []
  | x :: l' => insert_sorted x (sorted l')
  end.

(** ** [percentile] (load_test.py, lines 10-21) *)

Definition percentile (latencies : list Q) (p : Q) : pyresult Q :=
  match latencies with
  | [] => Ok 0%Q
  | _ :: _ =>
      let latencies_sorted := sorted latencies in
      let n := Z.of_nat (length latencies_sorted) in
      let k := (inject_Z (n - 1) * (p / 100))%Q in
      let f := py_int k in
      let c := Z.min (f + 1) (n - 1) in
      if f =? c then py_getitem latencies_sorted f
      else
        let* lo := py_getitem latencies_sorted f in
        let* hi := py_getitem latencies_sorted c in
        Ok (lo * (inject_Z c - k) + hi * (k - inject_Z f))%Q
  end.

(** The percentile as the specification words it: floor of the rank and
    the order statistics of the ascending list. *)
Definition percentile_spec (latencies : list Q) (p : Q) : Q :=
  let srt := sorted latencies in
  let n := Z.of_nat (length latencies) in
  if n =? 0 then 0%Q
  else
    let k := (inject_Z (n - 1) * (p / 100))%Q in
    let f := Qfloor k in
    let c := Z.min (f + 1) (n - 1) in
    if f =? c then nth (Z.to_nat f) srt 0%Q
    else (nth (Z.to_nat f) srt 0%Q * (inject_Z c - k)
          + nth (Z.to_nat c) srt 0%Q * (k - inject_Z f))%Q.

(** [round(x, 2)]: nearest multiple of 1/100, a tie goes to the even one. *)
Definition round_half_even (x : Q) : Z :=
  let f := Qfloor x in
  match Qcompare (x - inject_Z f) (1 # 2) with
  | Lt => f
  | Gt => f + 1
  | Eq => if Z.even f then f else f + 1
  end.

Definition py_round2 (x : Q) : Q := (inject_Z (round_half_even (x * 100)) / 100)%Q.

(** [sum(l)], [min(l)] and [max(l)] on floats, left to right. *)
Definition py_sum (l : list Q) : Q := fold_left Qplus l 0%Q.

Definition py_min (l : list Q) : Q :=
  match l with
  | [] => 0%Q
  | x :: l' => fold_left (fun m y => if Qlt_le_dec y m then y else m) l' x
  end.

Definition py_max (l : list Q) : Q :=
  match l with
  | [] => 0%Q
  | x :: l' => fold_left (fun m y => if Qlt_le_dec m y then y else m) l' x
  end.

(** [statistics.mean(l)] of a non-empty list. *)
Definition mean (l : list Q) : Q := (py_sum l / inject_Z (Z.of_nat (length l)))%Q.

(** [collections.Counter(l)]: every element counted up in turn. *)
Definition Counter (l : list Z) : gmap Z nat :=
  fold_left (fun m c => <[c := S (default 0%nat (m !! c))]> m) l ∅.

(** ** Data of a run *)

(** One entry of [results]: the tuple
    [(elapsed_ms, status_code, is_transport_error)]. *)
Record Outcome : Type := mkOutcome {
  elapsed_ms : Q;
  status_code : option Z;
  is_transport_error : bool
}.

(** One entry of [timeseries]. *)
Record TimeseriesPoint : Type := mkPoint {
  pt_timestamp : Q;
  pt_completed : nat;
  pt_avg_latency_ms : Q;
  pt_errors : nat
}.

(** The dict handed to the progress callback (its "type" is always
    "progress"). *)
Record ProgressEvent : Type := mkProgress {
  ev_completed : nat;
  ev_total : Z;
  ev_avg_latency_ms : Q;
  ev_errors : nat;
  ev_timestamp : Q
}.

(** What awaiting the callback does: it returns, or it raises. *)
Inductive cb_outcome : Type := CbReturn | CbRaise.

Definition callback : Type := ProgressEvent -> cb_outcome.

Record LatencyStats : Type := mkLatency {
  lat_avg : Q; lat_min : Q; lat_max : Q;
  lat_p50 : Q; lat_p90 : Q; lat_p95 : Q; lat_p99 : Q
}.

Record MetricsSummary : Type := mkSummary {
  total_time_seconds : Q;
  total_requests : nat;
  successful_requests : nat;
  failed_requests : nat;
  transport_errors : nat;
  requests_per_second : Q;
  latency_ms : LatencyStats;
  status_codes : gmap Z nat
}.

Record LoadTestResult : Type := mkResult {
  summary : MetricsSummary;
  res_timeseries : list TimeseriesPoint
}.

(** ** [worker] (load_test.py, lines 24-85) *)

(** Where a worker coroutine is suspended. *)
Inductive task_state : Type :=
| Waiting                       (* at [async with semaphore], no permit yet *)
| InFlight (start : Q)          (* permit held, awaiting [client.request] *)
| InCallback (r : cb_outcome)   (* permit held, awaiting [progress_callback] *)
| Finished                      (* returned; permit given back *)
| Raised.                       (* left with the callback's exception; permit given back *)

(** The objects shared by all workers of a run.  [sent] and [emitted] are
    logs of the calls made to the transport and to the callback. *)
Record run_state : Type := mkState {
  sem_value : nat;
  tasks : list task_state;
  results : list Outcome;
  completed : nat;
  timeseries : list TimeseriesPoint;
  sent : list (string * string);
  emitted : list ProgressEvent
}.

(** What [await client.request(...)] does: a response with some status,
    or an exception (timeout, connection failure, ...). *)
Inductive transport_result : Type :=
| Response (status : Z)
| TransportFailure.

Definition is_http_error (r : Outcome) : bool :=
  match status_code r with
  | Some s => 400 <=? s
  | None => false
  end.

Definition http_errors (rs : list Outcome) : nat :=
  length (List.filter is_http_error rs).

Definition running_avg (rs : list Outcome) : Q :=
  let latencies_so_far := map elapsed_ms rs in
  match latencies_so_far with
  | [] => 0%Q
  | _ :: _ => (py_sum latencies_so_far / inject_Z (Z.of_nat (length latencies_so_far)))%Q
  end.

(** Line 68: [not timeseries or (now - timeseries[-1]["timestamp"]) >= 0.5]. *)
Definition should_sample (ts : list TimeseriesPoint) (now : Q) : bool :=
  match last ts with
  | None => true
  | Some pt => Qle_bool (1 # 2) (now - pt_timestamp pt)
  end.

(** Lines 36-39, run as soon as the permit is held: read the clock and
    issue the request. *)
Definition worker_start (method url : string) (i : nat) (start : Q)
    (st : run_state) : run_state :=
  mkState (Nat.pred (sem_value st))
          (<[i := InFlight start]> (tasks st))
          (results st) (completed st) (timeseries st)
          (sent st ++ [(method, url)]) (emitted st).

(** Lines 42-85, run when the transport call is over: [r] is what it
    did, [t] the reading of [perf_counter()], [now] and [now'] the two
    readings of [time.time()]. *)
Definition worker_resume (total : Z) (progress_callback : option callback)
    (i : nat) (start : Q) (r : transport_result) (t now now' : Q)
    (st : run_state) : run_state :=
  let elapsed := ((t - start) * 1000)%Q in
  let outcome :=
    match r with
    | Response status => mkOutcome elapsed (Some status) false
    | TransportFailure => mkOutcome elapsed None true
    end in
  let results' := results st ++ [outcome] in
  let completed' := S (completed st) in
  match progress_callback with
  | None =>
      mkState (S (sem_value st)) (<[i := Finished]> (tasks st))
              results' completed' (timeseries st) (sent st) (emitted st)
  | Some cb =>
      let http_errors_so_far := http_errors results' in
      let avg_latency := running_avg results' in
      let timeseries' :=
        if should_sample (timeseries st) now
        then timeseries st
             ++ [mkPoint now completed' (py_round2 avg_latency) http_errors_so_far]
        else timeseries st in
      let ev := mkProgress completed' total (py_round2 avg_latency)
                           http_errors_so_far now' in
      mkState (sem_value st) (<[i := InCallback (cb ev)]> (tasks st))
              results' completed' timeseries' (sent st) (emitted st ++ [ev])
  end.

(** The callback's awaitable is over: the worker leaves
    [async with semaphore] (giving the permit back) either by returning
    or with the callback's exception. *)
Definition worker_finish (i : nat) (r : cb_outcome) (st : run_state) : run_state :=
  mkState (S (sem_value st))
          (<[i := match r with CbReturn => Finished | CbRaise => Raised end]> (tasks st))
          (results st) (completed st) (timeseries st) (sent st) (emitted st).

(** ** The event loop *)

(** The atomic steps of a run, with what the environment decides in each. *)
Inductive event : Type :=
| Acquire (i : nat) (start : Q)
| Complete (i : nat) (r : transport_result) (t now now' : Q)
| CallbackDone (i : nat).

Section Run.

Variables (url method : string) (total : Z) (concurrency : Z).
Variable progress_callback : option callback.

(** One step of worker [i]; [None] when the worker is not suspended
    there (or, for [Acquire], when the semaphore has no permit left). *)
Definition step (e : event) (st : run_state) : option run_state :=
  match e with
  | Acquire i start =>
      match tasks st !! i with
      | Some Waiting =>
          if (0 <? sem_value st)%nat then Some (worker_start method url i start st)
          else None
      | _ => None
      end
  | Complete i r t now now' =>
      match tasks st !! i with
      | Some (InFlight start) =>
          Some (worker_resume total progress_callback i start r t now now' st)
      | _ => None
      end
  | CallbackDone i =>
      match tasks st !! i with
      | Some (InCallback r) => Some (worker_finish i r st)
      | _ => None
      end
  end.

Fixpoint exec (sched : list event) (st : run_state) : option run_state :=
  match sched with
  | [] => Some st
  | e :: sched' =>
      match step e st with
      | Some st' => exec sched' st'
      | None => None
      end
  end.

(** Lines 94-119: the semaphore, the empty shared objects and one
    worker per request, none of them started. *)
Definition init : run_state :=
  mkState (Z.to_nat concurrency) (replicate (Z.to_nat total) Waiting)
          [] 0%nat [] [] [].

End Run.

(** ** [run_load_test] (load_test.py, lines 87-173) *)

Definition is_raised (t : task_state) : bool :=
  match t with Raised => true | _ => false end.

Definition is_finished (t : task_state) : bool :=
  match t with Finished => true | _ => false end.

Definition holds_permit (t : task_state) : bool :=
  match t with InFlight _ | InCallback _ => true | _ => false end.

(** [await asyncio.gather] over the tasks: it raises as soon as a task has
    raised, returns once every task has returned, and waits otherwise. *)
Inductive gather_status : Type := GatherPending | GatherDone | GatherRaised.

Definition gather_poll (st : run_state) : gather_status :=
  if existsb is_raised (tasks st) then GatherRaised
  else if forallb is_finished (tasks st) then GatherDone
  else GatherPending.

Inductive gather_result : Type :=
| GReturn (st : run_state)
| GRaise (st : run_state)
| GSuspended (st : run_state)   (* the schedule ended before gather did *)
| GNotEnabled.                  (* the schedule names a step that cannot happen *)

Section Gather.

Variables (url method : string) (total : Z) (concurrency : Z).
Variable progress_callback : option callback.

Fixpoint gather (sched : list event) (st : run_state) : gather_result :=
  match gather_poll st with
  | GatherDone => GReturn st
  | GatherRaised => GRaise st
  | GatherPending =>
      match sched with
      | [] => GSuspended st
      | e :: sched' =>
          match step url method total progress_callback e st with
          | Some st' => gather sched' st'
          | None => GNotEnabled
          end
      end
  end.

End Gather.

(** Lines 124-168: the summary of the outcomes. *)
Definition has_status (r : Outcome) : bool :=
  match status_code r with Some _ => true | None => false end.

Definition status_lt_400 (r : Outcome) : bool :=
  match status_code r with Some s => s <? 400 | None => false end.

Definition status_ge_400 (r : Outcome) : bool :=
  match status_code r with Some s => 400 <=? s | None => false end.

Definition aggregate (results : list Outcome) (total_time : Q) : pyresult MetricsSummary :=
  let latencies := map elapsed_ms results in
  let http_results := List.filter has_status results in
  let transport_errors := List.filter is_transport_error results in
  let status_codes := omap status_code http_results in
  let successes := List.filter status_lt_400 http_results in
  let http_failures := List.filter status_ge_400 http_results in
  let total := length results in
  let success_count := length successes in
  let failure_count := (length http_failures + length transport_errors)%nat in
  let avg_latency := match latencies with [] => 0%Q | _ :: _ => mean latencies end in
  let min_latency := match latencies with [] => 0%Q | _ :: _ => py_min latencies end in
  let max_latency := match latencies with [] => 0%Q | _ :: _ => py_max latencies end in
  let* p50 := percentile latencies 50 in
  let* p90 := percentile latencies 90 in
  let* p95 := percentile latencies 95 in
  let* p99 := percentile latencies 99 in
  let rps := if Qlt_le_dec 0 total_time
             then (inject_Z (Z.of_nat total) / total_time)%Q else 0%Q in
  let status_dist := Counter status_codes in
  Ok (mkSummary total_time total success_count failure_count
                (length transport_errors) rps
                (mkLatency avg_latency min_latency max_latency p50 p90 p95 p99)
                status_dist).

(** What a call of [run_load_test] comes to. *)
Inductive run_outcome : Type :=
| Returned (r : LoadTestResult)
| RaisedValueError      (* [asyncio.Semaphore(concurrency)], negative value *)
| RaisedByCallback      (* a worker's exception, re-raised by [gather] *)
| RaisedIndexError      (* out of [percentile] *)
| Suspended             (* still awaiting [gather] when the schedule ends *)
| NotEnabled.           (* the schedule is not one of this run *)

(** The environment of a run: the readings of [perf_counter()] before
    and after, and the steps the event loop takes in between. *)
Record environment : Type := mkEnv {
  t_begin : Q;
  schedule : list event;
  t_end : Q
}.

Definition run_load_test (url method : string) (total_requests concurrency : Z)
    (progress_callback : option callback) (env : environment) : run_outcome :=
  if concurrency <? 0 then RaisedValueError
  else
    match gather url method total_requests progress_callback (schedule env)
                 (init total_requests concurrency) with
    | GReturn st =>
        let total_time := (t_end env - t_begin env)%Q in
        match aggregate (results st) total_time with
        | Ok metrics => Returned (mkResult metrics (timeseries st))
        | IndexError => RaisedIndexError
        end
    | GRaise _ => RaisedByCallback
    | GSuspended _ => Suspended
    | GNotEnabled => NotEnabled
    end.

(** ** Vocabulary of the specification *)

(** The number of outcomes with a property. *)
Definition count_outcomes (P : Outcome -> bool) (rs : list Outcome) : nat :=
  length (List.filter P rs).

Definition with_status (c : Z) (r : Outcome) : bool :=
  match status_code r with Some s => s =? c | None => false end.

(** The entry of a histogram for a code that occurs [k] times: none when
    it does not occur. *)
Definition tally (k : nat) : option nat :=
  match k with O => None | S _ => Some k end.

(** The three kinds of outcome of scenario C: a response 200, a response
    500, a timeout. *)
Definition scenario_C_outcome (r : Outcome) : Prop :=
  (status_code r = Some 200 /\ is_transport_error r = false)
  \/ (status_code r = Some 500 /\ is_transport_error r = false)
  \/ (status_code r = None /\ is_transport_error r = true).

(** Scenario C as an outcome set: latencies and order are arbitrary here. *)
Definition scenario_C_results : list Outcome :=
  [ mkOutcome 5 (Some 200) false; mkOutcome 7 (Some 500) false;
    mkOutcome 10000 None true;    mkOutcome 4 (Some 200) false;
    mkOutcome 6 (Some 200) false; mkOutcome 9 (Some 500) false;
    mkOutcome 5 (Some 200) false; mkOutcome 10000 None true;
    mkOutcome 8 (Some 500) false; mkOutcome 3 (Some 200) false ].

(** Counting the workers in some state, and the steps a worker has left. *)
Definition weigh (w : task_state -> nat) (l : list task_state) : nat :=
  list_sum (map w l).

Definition count_tasks (f : task_state -> bool) (l : list task_state) : nat :=
  weigh (fun t => if f t then 1%nat else 0%nat) l.

Definition started (t : task_state) : bool :=
  match t with Waiting => false | _ => true end.

Definition answered (t : task_state) : bool :=
  match t with InCallback _ | Finished | Raised => true | _ => false end.

Definition steps_left (t : task_state) : nat :=
  match t with
  | Waiting => 3
  | InFlight _ => 2
  | InCallback _ => 1
  | Finished | Raised => 0
  end.

(** A callback that never raises, or no callback at all. *)
Definition never_raises (cb : option callback) : Prop :=
  forall f, cb = Some f -> forall ev, f ev = CbReturn.

(** Consecutive points of a series lie at least half a second apart. *)
Definition spaced (ts : list TimeseriesPoint) : Prop :=
  forall (i : nat) (a b : TimeseriesPoint),
    ts !! i = Some a -> ts !! S i = Some b ->
    (pt_timestamp a + (1 # 2) <= pt_timestamp b)%Q.

(** The methods the request schema of the REST layer admits
    (api_main.py, line 31). *)
Definition allowed_methods : list string :=
  ["GET"; "POST"; "PUT"; "DELETE"; "PATCH"; "HEAD"; "OPTIONS"]%string.

(** What the shared objects of a run of [total] requests under
    [concurrency] permits always satisfy. *)
Record consistent (total concurrency : Z) (st : run_state) : Prop := mkConsistent {
  completed_is_length : completed st = length (results st);
  sent_are_started : length (sent st) = count_tasks started (tasks st);
  results_are_answered : length (results st) = count_tasks answered (tasks st);
  permits_are_conserved :
    (sem_value st + count_tasks holds_permit (tasks st))%nat = Z.to_nat concurrency;
  one_task_per_request : length (tasks st) = Z.to_nat total
}.

(** A worker that has not raised and is not about to. *)
Definition calm (t : task_state) : Prop :=
  t <> Raised /\ t <> InCallback CbRaise.

Definition in_flight (t : task_state) : bool :=
  match t with InFlight _ => true | _ => false end.

(** The point the sampler makes of an outcome set at time [now]. *)
Definition sample_of (rs : list Outcome) (now : Q) : TimeseriesPoint :=
  mkPoint now (length rs) (py_round2 (running_avg rs)) (http_errors rs).

(** The first point of a series was taken at the first completion. *)
Definition first_point_at_first_completion (st : run_state) : Prop :=
  (results st = [] /\ timeseries st = [])
  \/ (results st <> []
      /\ exists now rest, timeseries st = sample_of (take 1 (results st)) now :: rest).

(** The event of the [k]-th completion (counting from 0) describes the
    first [k+1] outcomes. *)
Definition events_describe (total : Z) (st : run_state) : Prop :=
  length (emitted st) = length (results st)
  /\ forall k ev, emitted st !! k = Some ev ->
       ev_completed ev = S k
       /\ ev_total ev = total
       /\ ev_avg_latency_ms ev = py_round2 (running_avg (take (S k) (results st)))
       /\ ev_errors ev = http_errors (take (S k) (results st)).

(** A state in which no request was or can be dispatched. *)
Definition idle (st : run_state) : Prop :=
  Forall (fun t => t = Waiting) (tasks st)
  /\ (sem_value st = 0%nat \/ tasks st = [])
  /\ results st = [] /\ sent st = [] /\ completed st = 0%nat.

(** ** Sample runs *)

Definition demo_url : string := "http://localhost:8000/health".

Definition quiet_callback : callback := fun _ => CbReturn.

Definition failing_callback : callback := fun _ => CbRaise.

(** Two requests under one permit and no callback: a response 200 after
    5 ms, then a timeout after 10 s. *)
Definition two_requests : list event :=
  [ Acquire 0 0; Complete 0 (Response 200) 0.005 100 100;
    Acquire 1 0.005; Complete 1 TransportFailure 10.005 110 110 ].

(** Two requests under two permits with a callback: a response 500 after
    5.123456 ms, and a response 200 two tenths of a second later. *)
Definition two_requests_with_callback : list event :=
  [ Acquire 0 0; Acquire 1 0;
    Complete 0 (Response 500) 0.005123456 100 100; CallbackDone 0;
    Complete 1 (Response 200) 0.2 100.2 100.2; CallbackDone 1 ].

(** One request answered 405 after 5.123456 ms. *)
Definition one_request : list event :=
  [ Acquire 0 0; Complete 0 (Response 405) 0.005123456 100 100 ].

(** ** Vocabulary of the further properties *)

(** Two results are alike: both raise, or both return equal numbers. *)
Definition result_eqv (r r' : pyresult Q) : Prop :=
  match r, r' with
  | Ok v, Ok v' => Qeq v v'
  | IndexError, IndexError => True
  | _, _ => False
  end.

(** The number of status codes a histogram has counted. *)
Definition histogram_total (m : gmap Z nat) : nat :=
  map_fold (fun _ v acc => (v + acc)%nat) 0%nat m.

(** An outcome is either a response with its status or a transport error
    without one. *)
Definition classified (r : Outcome) : Prop :=
  (exists s, status_code r = Some s /\ is_transport_error r = false)
  \/ (status_code r = None /\ is_transport_error r = true).

(** Two summaries say the same: equal counts and histogram, equal
    numbers for rate and latencies. *)
Definition summary_eqv (m m' : MetricsSummary) : Prop :=
  total_requests m = total_requests m'
  /\ successful_requests m = successful_requests m'
  /\ failed_requests m = failed_requests m'
  /\ transport_errors m = transport_errors m'
  /\ status_codes m = status_codes m'
  /\ Qeq (requests_per_second m) (requests_per_second m')
  /\ Qeq (lat_avg (latency_ms m)) (lat_avg (latency_ms m'))
  /\ Qeq (lat_min (latency_ms m)) (lat_min (latency_ms m'))
  /\ Qeq (lat_max (latency_ms m)) (lat_max (latency_ms m'))
  /\ Qeq (lat_p50 (latency_ms m)) (lat_p50 (latency_ms m'))
  /\ Qeq (lat_p90 (latency_ms m)) (lat_p90 (latency_ms m'))
  /\ Qeq (lat_p95 (latency_ms m)) (lat_p95 (latency_ms m'))
  /\ Qeq (lat_p99 (latency_ms m)) (lat_p99 (latency_ms m')).

(** The shared objects only grow: what a later state holds extends what
    an earlier one held. *)
Definition extends (st st' : run_state) : Prop :=
  results st `prefix_of` results st'
  /\ timeseries st `prefix_of` timeseries st'
  /\ emitted st `prefix_of` emitted st'
  /\ sent st `prefix_of` sent st'
  /\ (completed st <= completed st')%nat.

(** A point repeats the figures of a progress event. *)
Definition point_matches (pt : TimeseriesPoint) (ev : ProgressEvent) : Prop :=
  pt_completed pt = ev_completed ev
  /\ pt_avg_latency_ms pt = ev_avg_latency_ms ev
  /\ pt_errors pt = ev_errors ev.

(** The series is a sample of the progress events, taken in order. *)
Definition sampled_from_events (st : run_state) : Prop :=
  (forall pt, pt ∈ timeseries st ->
     (pt_completed pt <= completed st)%nat
     /\ exists ev, ev ∈ emitted st /\ point_matches pt ev)
  /\ (forall (i : nat) (a b : TimeseriesPoint),
        timeseries st !! i = Some a -> timeseries st !! S i = Some b ->
        (pt_completed a < pt_completed b)%nat)
  /\ (length (timeseries st) <= length (emitted st))%nat.

(** The readings of [perf_counter()] along a schedule never go back,
    starting from the reading [now]. *)
Fixpoint monotone_from (now : Q) (sched : list event) : Prop :=
  match sched with
  | [] => True
  | Acquire _ start :: sched' => (now <= start)%Q /\ monotone_from start sched'
  | Complete _ _ t _ _ :: sched' => (now <= t)%Q /\ monotone_from t sched'
  | CallbackDone _ :: sched' => monotone_from now sched'
  end.

(** No worker in flight started after [now], and no recorded latency is
    negative. *)
Definition clock_sane (now : Q) (st : run_state) : Prop :=
  Forall (fun t => match t with InFlight start => (start <= now)%Q | _ => True end)
         (tasks st)
  /\ Forall (fun r => (0 <= elapsed_ms r)%Q) (results st).

(** ** The command line (load_test.py, lines 194-235) *)

(** What [parse_args] hands to [main]. *)
Record Args : Type := mkArgs {
  arg_url : string;
  arg_method : string;
  arg_requests : Z;
  arg_concurrency : Z
}.

(** The values of the dict [run_load_test] returns (lines 170-173). *)
Inductive pyvalue : Type :=
| VSummary (m : MetricsSummary)
| VTimeseries (ts : list TimeseriesPoint).

Definition result_dict (r : LoadTestResult) : gmap string pyvalue :=
  {[ "summary"%string := VSummary (summary r);
     "timeseries"%string := VTimeseries (res_timeseries r) ]}.

Inductive py_exception : Type :=
| ValueError
| CallbackException
| PercentileIndexError
| KeyError (key : string).

(** How a call of [main] ends, with the texts it has printed, one per
    call of [print]. *)
Inductive main_outcome : Type :=
| MainReturn (out : list string)
| MainRaise (e : py_exception) (out : list string)
| MainPending (out : list string).

(** [debug_progress] prints one line and returns. *)
Definition debug_progress : callback := fun _ => CbReturn.

Definition progress_line (k : nat) (n : Z) : string :=
  "Progress: " +:+ pretty k +:+ " / " +:+ pretty n.

Definition debug_progress_line (p : ProgressEvent) : string :=
  progress_line (ev_completed p) (ev_total p).

Definition banner : string :=
  String (Ascii.ascii_of_nat 10) "=== Load Test Results ===".  (* "\n=== ..." *)

(** [run_load_test] together with the events its callback was called
    with, in order. *)
Definition run_load_test_traced (url method : string) (total_requests concurrency : Z)
    (progress_callback : option callback) (env : environment)
  : run_outcome * list ProgressEvent :=
  if concurrency <? 0 then (RaisedValueError, [])
  else
    match gather url method total_requests progress_callback (schedule env)
                 (init total_requests concurrency) with
    | GReturn st =>
        let total_time := (t_end env - t_begin env)%Q in
        (match aggregate (results st) total_time with
         | Ok metrics => Returned (mkResult metrics (timeseries st))
         | IndexError => RaisedIndexError
         end, emitted st)
    | GRaise st => (RaisedByCallback, emitted st)
    | GSuspended st => (Suspended, emitted st)
    | GNotEnabled => (NotEnabled, [])
    end.

Section Main.

(** [str.upper], and the statements of [main] after the first successful
    look-up in [metrics] (lines 212-235), as they act on the value found
    and the output so far. *)
Variable py_upper : string -> string.
Variable report : pyvalue -> list string -> main_outcome.

Definition main (args : Args) (env : environment) : main_outcome :=
  let '(outcome, events) :=
    run_load_test_traced (arg_url args) (py_upper (arg_method args))
                         (arg_requests args) (arg_concurrency args)
                         (Some debug_progress) env in
  let out := map debug_progress_line events in
  match outcome with
  | Returned r =>
      let metrics := result_dict r in
      let out := out ++ [banner] in
      match metrics !! "total_time_seconds"%string with
      | Some v => report v out
      | None => MainRaise (KeyError "total_time_seconds") out
      end
  | RaisedValueError => MainRaise ValueError out
  | RaisedByCallback => MainRaise CallbackException out
  | RaisedIndexError => MainRaise PercentileIndexError out
  | Suspended | NotEnabled => MainPending out
  end.

End Main.

(** ** The request schema of the REST layer (api_main.py, lines 29-34) *)

(** A payload of POST /run-test: every field but the URL may be absent. *)
Record RawRequest : Type := mkRaw {
  raw_url : string;
  raw_method : option string;
  raw_total_requests : option Z;
  raw_concurrency : option Z;
  raw_label : option string
}.

Record LoadTestRequest : Type := mkRequest {
  req_url : string;
  req_method : string;
  req_total_requests : Z;
  req_concurrency : Z;
  req_label : option string
}.

Section Schema.

(** The check of an [HttpUrl] field: the URL as the model holds it, or a
    rejection. *)
Variable http_url : string -> option string.

(** Validation of a payload against [LoadTestRequest]: defaults GET, 50
    and 10; the method among the allowed ones; 1 <= total_requests <= 1000
    and 1 <= concurrency <= 200. *)
Definition validate (raw : RawRequest) : option LoadTestRequest :=
  match http_url (raw_url raw) with
  | None => None
  | Some u =>
      let m := default "GET"%string (raw_method raw) in
      let n := default 50 (raw_total_requests raw) in
      let c := default 10 (raw_concurrency raw) in
      if bool_decide (m ∈ allowed_methods)
         && (1 <=? n) && (n <=? 1000) && (1 <=? c) && (c <=? 200)
      then Some (mkRequest u m n c (raw_label raw))
      else None
  end.

End Schema.

(** The run a validated request leads to: [run_test] enqueues
    [tasks.run_test_job] with the fields of the request, and the job hands
    them to [run_load_test] with its progress callback (tasks.py, lines
    42-54). *)
Definition run_test_job (req : LoadTestRequest) (progress_cb : callback)
    (env : environment) : run_outcome :=
  run_load_test (req_url req) (req_method req) (req_total_requests req)
                (req_concurrency req) (Some progress_cb) env.

(** ** [percentile] on binary64 floats (load_test.py, lines 10-21) *)

(** What an expression on floats raises. *)
Inductive float_error : Type := FIndexError | FOverflowError | FValueError.

Inductive fresult (A : Type) : Type :=
| Returns (v : A)
| Raises (e : float_error).
Arguments Returns {A} v.
Arguments Raises {A} e.

(** [int(x)] on a float: truncation towards zero, OverflowError on an
    infinity and ValueError on a NaN. *)
Definition int_of_float (x : float) : fresult Z :=
  match Prim2SF x with
  | S754_nan => Raises FValueError
  | S754_infinity _ => Raises FOverflowError
  | S754_zero _ => Returns 0
  | S754_finite s m e =>
      let a := match e with
               | Z0 => Zpos m
               | Zpos k => Z.shiftl (Zpos m) (Zpos k)
               | Zneg k => Z.shiftr (Zpos m) (Zpos k)
               end in
      Returns (if s then - a else a)
  end.

(** The float an [int] becomes in arithmetic with a float, rounded to
    nearest even.  [percentile] converts the last index [n - 1] and the
    indices [f] and [c] after the subscripts have accepted them, all below
    2^63 in absolute value, where this is Python's conversion. *)
Definition float_of_int (z : Z) : float :=
  if z <? 0 then PrimFloat.opp (PrimFloat.of_uint63 (Uint63.of_Z (- z)))
  else PrimFloat.of_uint63 (Uint63.of_Z z).

(** [sorted] on floats, by stable insertion with [<=]: ascending on
    latencies, which are elapsed times and hold no NaN. *)
Fixpoint insert_sorted64 (x : float) (l : list float) : list float :=
  match l with
  | [] => [x]
  | y :: l' => if PrimFloat.leb x y then x :: y :: l' else y :: insert_sorted64 x l'
  end.

Fixpoint sorted64 (l : list float) : list float :=
  match l with
  | [] => []
  | x :: l' => insert_sorted64 x (sorted64 l')
  end.

Definition getitem64 {A : Type} (l : list A) (i : Z) : fresult A :=
  match py_getitem l i with
  | Ok v => Returns v
  | IndexError => Raises FIndexError
  end.

(** The position [k = (n - 1) * (p / 100)] on a list of [n] latencies. *)
Definition rank64 (n : nat) (p : float) : float :=
  PrimFloat.mul (float_of_int (Z.of_nat n - 1)) (PrimFloat.div p 100%float).

Definition percentile64 (latencies : list float) (p : float) : fresult float :=
  match latencies with
  | [] => Returns 0%float
  | _ :: _ =>
      let latencies_sorted := sorted64 latencies in
      let n := Z.of_nat (length latencies_sorted) in
      let k := rank64 (length latencies_sorted) p in
      match int_of_float k with
      | Raises e => Raises e
      | Returns f =>
          let c := Z.min (f + 1) (n - 1) in
          if f =? c then getitem64 latencies_sorted f
          else
            match getitem64 latencies_sorted f with
            | Raises e => Raises e
            | Returns lo =>
                match getitem64 latencies_sorted c with
                | Raises e => Raises e
                | Returns hi =>
                    Returns (PrimFloat.add
                               (PrimFloat.mul lo (PrimFloat.sub (float_of_int c) k))
                               (PrimFloat.mul hi (PrimFloat.sub k (float_of_int f))))
                end
            end
      end
  end.

(** A float that is neither an infinity nor a NaN. *)
Definition finite64 (x : float) : bool :=
  match Prim2SF x with
  | S754_nan | S754_infinity _ => false
  | S754_zero _ | S754_finite _ _ _ => true
  end.

(** [k >= n] for a float [k] and an int [n], on their exact values, as
    Python compares a float with an int; false on a NaN. *)
Definition float_ge_int (k : float) (n : Z) : bool :=
  match Prim2SF k with
  | S754_nan => false
  | S754_infinity s => negb s
  | S754_zero _ => n <=? 0
  | S754_finite s m e =>
      let a := if s then Zneg m else Zpos m in
      match e with
      | Z0 => n <=? a
      | Zpos j => n <=? Z.shiftl a (Zpos j)
      | Zneg j => Z.shiftl n (Zpos j) <=? a
      end
  end.

(** ** Further sample runs *)

(** Three requests under three permits with a callback, completing at
    wall-clock times 100, 100.2 and 100.7. *)
Definition three_requests_spaced : list event :=
  [ Acquire 0 0; Acquire 1 0; Acquire 2 0;
    Complete 0 (Response 200) 0.005 100 100; CallbackDone 0;
    Complete 1 (Response 200) 0.2 100.2 100.2; CallbackDone 1;
    Complete 2 (Response 200) 0.7 100.7 100.7; CallbackDone 2 ].

(** * Properties *)

(** ** Python built-ins *)

Lemma py_int_nonneg (x : Q) : (0 <= x)%Q -> py_int x = Qfloor x.
Proof.
  destruct x as [a d]. unfold Qle, py_int, Qfloor. simpl. intros H.
  apply Z.quot_div_nonneg; lia.
Qed.

Lemma py_getitem_in_range {A : Type} (l : list A) (i : Z) (d : A) :
  0 <= i < Z.of_nat (length l) -> py_getitem l i = Ok (nth (Z.to_nat i) l d).
Proof.
  intros [H0 H1]. unfold py_getitem.
  assert (E0 : (i <? 0) = false) by lia.
  assert (E1 : (Z.of_nat (length l) <=? i) = false) by lia.
  rewrite E0. cbv zeta. rewrite E0, E1. cbn [orb].
  destruct (nth_error l (Z.to_nat i)) as [v|] eqn:E.
  - f_equal. symmetry. now apply nth_error_nth.
  - apply nth_error_None in E. lia.
Qed.

Lemma py_getitem_too_large {A : Type} (l : list A) (i : Z) :
  Z.of_nat (length l) <= i -> py_getitem l i = IndexError.
Proof.
  intros H. unfold py_getitem.
  assert (E0 : (i <? 0) = false) by lia.
  assert (E1 : (Z.of_nat (length l) <=? i) = true) by lia.
  rewrite E0. cbv zeta. now rewrite E0, E1.
Qed.

Lemma length_insert_sorted (x : Q) (l : list Q) :
  length (insert_sorted x l) = S (length l).
Proof.
  induction l as [|y l IH]; simpl; [reflexivity|].
  destruct (Qle_bool x y); simpl; congruence.
Qed.

Lemma length_sorted (l : list Q) : length (sorted l) = length l.
Proof.
  induction l as [|x l IH]; simpl; [reflexivity|].
  now rewrite length_insert_sorted, IH.
Qed.

Lemma insert_sorted_perm (x : Q) (l : list Q) : Permutation (x :: l) (insert_sorted x l).
Proof.
  induction l as [|y l IH]; simpl; [reflexivity|].
  destruct (Qle_bool x y); [reflexivity|].
  rewrite perm_swap. now constructor.
Qed.

Lemma sorted_perm (l : list Q) : Permutation l (sorted l).
Proof.
  induction l as [|x l IH]; simpl; [constructor|].
  rewrite <- insert_sorted_perm. now constructor.
Qed.

Lemma insert_sorted_Sorted (x : Q) (l : list Q) :
  Sorted Qle l -> Sorted Qle (insert_sorted x l).
Proof.
  induction l as [|y l IH]; simpl; intros Hs.
  - repeat constructor.
  - destruct (Qle_bool x y) eqn:E.
    + constructor; [assumption|]. constructor. now apply Qle_bool_iff.
    + assert (Hyx : (y <= x)%Q).
      { apply Qlt_le_weak, Qnot_le_lt. intros Hle.
        apply Qle_bool_iff in Hle. congruence. }
      inversion Hs as [|? ? Hs' Hhd]; subst.
      constructor; [now apply IH|].
      destruct l as [|z l]; simpl.
      * now constructor.
      * destruct (Qle_bool x z); constructor; [assumption|].
        now inversion Hhd.
  Qed.

Lemma sorted_Sorted (l : list Q) : Sorted Qle (sorted l).
Proof.
  induction l as [|x l IH]; simpl; [constructor|].
  now apply insert_sorted_Sorted.
Qed.

(** ** The percentile *)

(** For a rank in [0, 100] the position [k] lies in [0, n-1]. *)
Lemma rank_bounds (n : Z) (p : Q) :
  1 <= n -> (0 <= p)%Q -> (p <= 100)%Q ->
  (0 <= inject_Z (n - 1) * (p / 100))%Q
  /\ (inject_Z (n - 1) * (p / 100) <= inject_Z (n - 1))%Q.
Proof.
  intros Hn H0 H1.
  assert (Hm : (0 <= inject_Z (n - 1))%Q).
  { change 0%Q with (inject_Z 0). rewrite <- Zle_Qle. lia. }
  assert (Hq0 : (0 <= p / 100)%Q) by (apply Qle_shift_div_l; [reflexivity | lra]).
  assert (Hq1 : (p / 100 <= 1)%Q) by (apply Qle_shift_div_r; [reflexivity | lra]).
  split; [now apply Qmult_le_0_compat|].
  rewrite <- (Qmult_1_r (inject_Z (n - 1))) at 2.
  rewrite !(Qmult_comm (inject_Z (n - 1))).
  now apply Qmult_le_compat_r.
Qed.

Lemma percentile_in_range (latencies : list Q) (p : Q) :
  (0 <= p)%Q -> (p <= 100)%Q ->
  percentile latencies p = Ok (percentile_spec latencies p).
Proof.
  intros H0 H1. unfold percentile, percentile_spec.
  destruct latencies as [|x l]; [reflexivity|].
  set (srt := sorted (x :: l)).
  assert (Hlen : length srt = length (x :: l)) by apply length_sorted.
  rewrite Hlen. set (n := Z.of_nat (length (x :: l))).
  assert (Hn : 1 <= n) by (subst n; simpl length; lia).
  destruct (Z.eqb_spec n 0) as [?|_]; [lia|]. cbv zeta.
  destruct (rank_bounds n p Hn H0 H1) as [Hk0 Hk1].
  set (k := (inject_Z (n - 1) * (p / 100))%Q) in *.
  rewrite (py_int_nonneg k Hk0).
  assert (Hf : 0 <= Qfloor k <= n - 1).
  { split.
    - change 0 with (Qfloor 0). now apply Qfloor_resp_le.
    - rewrite <- (Qfloor_Z (n - 1)). now apply Qfloor_resp_le. }
  set (f := Qfloor k) in *.
  assert (Hc : 0 <= Z.min (f + 1) (n - 1) <= n - 1) by lia.
  set (c := Z.min (f + 1) (n - 1)) in *.
  rewrite (py_getitem_in_range srt f 0%Q) by lia.
  destruct (f =? c); [reflexivity|].
  rewrite (py_getitem_in_range srt c 0%Q) by lia.
  reflexivity.
Qed.

(** C1. For every list of latencies and every rank p in [0,100],
    [percentile] returns what the specification describes: 0 on the empty
    list, and otherwise, on the list sorted ascending, with
    k = (n-1)*(p/100), f = floor(k) and c = min(f+1, n-1), the element
    sorted[f] when f = c and sorted[f]*(c-k) + sorted[c]*(k-f) otherwise.
    On [10,20,30,40] the ranks 50, 0 and 100 give 25, 10 and 40. *)
Theorem percentile_meets_spec (latencies : list Q) (p : Q) :
  (0 <= p)%Q -> (p <= 100)%Q ->
  percentile latencies p = Ok (percentile_spec latencies p)
  /\ percentile [] p = Ok 0%Q
  /\ Sorted Qle (sorted latencies)
  /\ Permutation latencies (sorted latencies)
  /\ returns (percentile [10; 20; 30; 40]%Q 50) 25
  /\ returns (percentile [10; 20; 30; 40]%Q 0) 10
  /\ returns (percentile [10; 20; 30; 40]%Q 100) 40.
Proof.
  intros H0 H1.
  split; [now apply percentile_in_range|].
  split; [reflexivity|].
  split; [apply sorted_Sorted|].
  split; [apply sorted_perm|].
  repeat split; vm_compute; reflexivity.
Qed.

Lemma percentile_meets_spec_witness :
  percentile [30; 10; 40; 20]%Q 90 = Ok (percentile_spec [30; 10; 40; 20]%Q 90).
Proof.
  apply (percentile_meets_spec [30; 10; 40; 20]%Q 90); vm_compute; discriminate.
Defined.

(** ** The summary *)

Lemma count_outcomes_ext (P P' : Outcome -> bool) (rs : list Outcome) :
  Forall (fun r => P r = P' r) rs -> count_outcomes P rs = count_outcomes P' rs.
Proof.
  unfold count_outcomes. induction 1 as [|r rs Hr _ IH]; simpl; [reflexivity|].
  rewrite Hr. destruct (P' r); simpl; congruence.
Qed.

Lemma filter_narrow {A : Type} (P R : A -> bool) (l : list A) :
  (forall x, P x = true -> R x = true) ->
  List.filter P (List.filter R l) = List.filter P l.
Proof.
  intros HPR. induction l as [|x l IH]; simpl; [reflexivity|].
  destruct (R x) eqn:ER; simpl.
  - now rewrite IH.
  - destruct (P x) eqn:EP; [|assumption].
    apply HPR in EP. congruence.
Qed.

Lemma filter_status_lt_400 (rs : list Outcome) :
  List.filter status_lt_400 (List.filter has_status rs) = List.filter status_lt_400 rs.
Proof.
  apply filter_narrow. intros r. unfold status_lt_400, has_status.
  now destruct (status_code r).
Qed.

Lemma filter_status_ge_400 (rs : list Outcome) :
  List.filter status_ge_400 (List.filter has_status rs) = List.filter status_ge_400 rs.
Proof.
  apply filter_narrow. intros r. unfold status_ge_400, has_status.
  now destruct (status_code r).
Qed.

Lemma Counter_fold (l : list Z) (m : gmap Z nat) (c : Z) :
  fold_left (fun m c => <[c := S (default 0%nat (m !! c))]> m) l m !! c
  = match count_occ Z.eq_dec l c with
    | O => m !! c
    | S k => Some (S k + default 0 (m !! c))%nat
    end.
Proof.
  revert m. induction l as [|x l IH]; intros m; simpl; [reflexivity|].
  rewrite IH. destruct (Z.eq_dec x c) as [->|Hne].
  - rewrite lookup_insert_eq. simpl.
    destruct (count_occ Z.eq_dec l c); f_equal; lia.
  - rewrite lookup_insert_ne by assumption. reflexivity.
Qed.

Lemma Counter_lookup (l : list Z) (c : Z) :
  Counter l !! c = tally (count_occ Z.eq_dec l c).
Proof.
  unfold Counter. rewrite Counter_fold, lookup_empty. simpl.
  destruct (count_occ Z.eq_dec l c); simpl; f_equal; lia.
Qed.

Lemma count_occ_status (rs : list Outcome) (c : Z) :
  count_occ Z.eq_dec (omap status_code (List.filter has_status rs)) c
  = count_outcomes (with_status c) rs.
Proof.
  unfold count_outcomes. induction rs as [|r rs IH]; simpl; [reflexivity|].
  unfold has_status at 1, with_status at 1.
  destruct (status_code r) as [s|] eqn:E; simpl; [|exact IH].
  rewrite E. simpl. destruct (Z.eq_dec s c) as [->|Hne].
  - rewrite Z.eqb_refl. simpl. f_equal. exact IH.
  - destruct (Z.eqb_spec s c); [contradiction | exact IH].
Qed.

Lemma py_min_fold (l : list Q) (x : Q) :
  let m := fold_left (fun m y => if Qlt_le_dec y m then y else m) l x in
  In m (x :: l) /\ (m <= x)%Q /\ Forall (Qle m) l.
Proof.
  revert x. induction l as [|y l IH]; intros x; simpl.
  - split; [now left|]. split; [apply Qle_refl | constructor].
  - destruct (Qlt_le_dec y x) as [Hlt|Hle].
    + destruct (IH y) as (Hin & Hm & Hall). split; [|split].
      * right. exact Hin.
      * eapply Qle_trans; [exact Hm | now apply Qlt_le_weak].
      * constructor; assumption.
    + destruct (IH x) as (Hin & Hm & Hall). split; [|split].
      * destruct Hin as [Hin|Hin]; [now left | right; now right].
      * assumption.
      * constructor; [eapply Qle_trans; eassumption | assumption].
Qed.

Lemma py_max_fold (l : list Q) (x : Q) :
  let m := fold_left (fun m y => if Qlt_le_dec m y then y else m) l x in
  In m (x :: l) /\ (x <= m)%Q /\ Forall (fun y => (y <= m)%Q) l.
Proof.
  revert x. induction l as [|y l IH]; intros x; simpl.
  - split; [now left|]. split; [apply Qle_refl | constructor].
  - destruct (Qlt_le_dec x y) as [Hlt|Hle].
    + destruct (IH y) as (Hin & Hm & Hall). split; [|split].
      * right. exact Hin.
      * apply Qle_trans with y; [now apply Qlt_le_weak | exact Hm].
      * constructor; assumption.
    + destruct (IH x) as (Hin & Hm & Hall). split; [|split].
      * destruct Hin as [Hin|Hin]; [now left | right; now right].
      * assumption.
      * constructor; [apply Qle_trans with x; assumption | assumption].
Qed.

Lemma py_min_spec (l : list Q) :
  l <> [] -> In (py_min l) l /\ Forall (Qle (py_min l)) l.
Proof.
  destruct l as [|x l]; [congruence|]. intros _. unfold py_min.
  destruct (py_min_fold l x) as (Hin & Hm & Hall).
  split; [assumption | constructor; assumption].
Qed.

Lemma py_max_spec (l : list Q) :
  l <> [] -> In (py_max l) l /\ Forall (fun y => (y <= py_max l)%Q) l.
Proof.
  destruct l as [|x l]; [congruence|]. intros _. unfold py_max.
  destruct (py_max_fold l x) as (Hin & Hm & Hall).
  split; [assumption | constructor; assumption].
Qed.

(** [aggregate] never raises: its four ranks lie in [0, 100]. *)
Lemma aggregate_returns (results : list Outcome) (t : Q) :
  let latencies := map elapsed_ms results in
  aggregate results t
  = Ok (mkSummary t (length results)
          (length (List.filter status_lt_400 (List.filter has_status results)))
          (length (List.filter status_ge_400 (List.filter has_status results))
           + length (List.filter is_transport_error results))%nat
          (length (List.filter is_transport_error results))
          (if Qlt_le_dec 0 t
           then (inject_Z (Z.of_nat (length results)) / t)%Q else 0%Q)
          (mkLatency
             match latencies with [] => 0%Q | _ :: _ => mean latencies end
             match latencies with [] => 0%Q | _ :: _ => py_min latencies end
             match latencies with [] => 0%Q | _ :: _ => py_max latencies end
             (percentile_spec latencies 50) (percentile_spec latencies 90)
             (percentile_spec latencies 95) (percentile_spec latencies 99))
          (Counter (omap status_code (List.filter has_status results)))).
Proof.
  intros latencies. unfold aggregate. fold latencies.
  rewrite !percentile_in_range by (vm_compute; discriminate).
  reflexivity.
Qed.

(** C3. The summary of a completed outcome set and a wall-clock duration
    t: successes are the outcomes with a status below 400, failures the
    outcomes with a status of 400 or more plus the transport errors;
    average, minimum, maximum and the four percentiles are taken over the
    latencies of all outcomes; the rate is the number of outcomes over t
    when t > 0 and 0 otherwise; the histogram counts, per status code, the
    outcomes that carry it.  With 5 responses 200, 3 responses 500 and 2
    timeouts: 5 successes, 5 failures, 2 transport errors and the histogram
    {200: 5, 500: 3}. *)
Theorem aggregate_meets_spec (results : list Outcome) (t : Q) :
  exists m : MetricsSummary,
    aggregate results t = Ok m
    /\ total_requests m = length results
    /\ successful_requests m = count_outcomes status_lt_400 results
    /\ failed_requests m
       = (count_outcomes status_ge_400 results
          + count_outcomes is_transport_error results)%nat
    /\ transport_errors m = count_outcomes is_transport_error results
    /\ (let latencies := map elapsed_ms results in
        let lat := latency_ms m in
        (results = [] -> lat_avg lat = 0%Q /\ lat_min lat = 0%Q /\ lat_max lat = 0%Q)
        /\ (results <> [] ->
            lat_avg lat = (py_sum latencies / inject_Z (Z.of_nat (length results)))%Q
            /\ In (lat_min lat) latencies /\ Forall (Qle (lat_min lat)) latencies
            /\ In (lat_max lat) latencies
            /\ Forall (fun x => (x <= lat_max lat)%Q) latencies)
        /\ lat_p50 lat = percentile_spec latencies 50
        /\ lat_p90 lat = percentile_spec latencies 90
        /\ lat_p95 lat = percentile_spec latencies 95
        /\ lat_p99 lat = percentile_spec latencies 99)
    /\ ((0 < t)%Q ->
        requests_per_second m = (inject_Z (Z.of_nat (length results)) / t)%Q)
    /\ ((t <= 0)%Q -> requests_per_second m = 0%Q)
    /\ (forall c : Z,
          status_codes m !! c = tally (count_outcomes (with_status c) results))
    /\ (Forall scenario_C_outcome results ->
        count_outcomes (with_status 200) results = 5%nat ->
        count_outcomes (with_status 500) results = 3%nat ->
        count_outcomes is_transport_error results = 2%nat ->
        successful_requests m = 5%nat /\ failed_requests m = 5%nat
        /\ transport_errors m = 2%nat
        /\ status_codes m = {[ 200 := 5%nat; 500 := 3%nat ]}).
Proof.
  eexists. split; [apply aggregate_returns|]. cbn -[percentile_spec Counter].
  assert (Hhist : forall c : Z,
             Counter (omap status_code (List.filter has_status results)) !! c
             = tally (count_outcomes (with_status c) results)).
  { intros c. now rewrite Counter_lookup, count_occ_status. }
  fold (count_outcomes is_transport_error results).
  rewrite filter_status_lt_400, filter_status_ge_400.
  fold (count_outcomes status_lt_400 results).
  fold (count_outcomes status_ge_400 results).
  cbv zeta.
  repeat match goal with |- _ /\ _ => split end; try reflexivity.
  - intros ->. now repeat split.
  - intros Hne. destruct results as [|r rs]; [congruence|].
    destruct (py_min_spec (map elapsed_ms (r :: rs))) as [? ?]; [discriminate|].
    destruct (py_max_spec (map elapsed_ms (r :: rs))) as [? ?]; [discriminate|].
    repeat split; try assumption.
    unfold mean. now rewrite length_map.
  - intros Ht. destruct (Qlt_le_dec 0 t) as [_|Hle]; [reflexivity|].
    exfalso. apply (Qlt_irrefl 0). eapply Qlt_le_trans; eassumption.
  - intros Ht. destruct (Qlt_le_dec 0 t) as [Hlt|_]; [|reflexivity].
    exfalso. apply (Qlt_irrefl 0). eapply Qlt_le_trans; eassumption.
  - exact Hhist.
  - intros HC H200 H500 Hte.
    assert (Hlt : count_outcomes status_lt_400 results = 5%nat).
    { rewrite (count_outcomes_ext status_lt_400 (with_status 200)); [assumption|].
      eapply List.Forall_impl; [|exact HC]. intros r. unfold status_lt_400, with_status.
      now intros [[-> _]|[[-> _]|[-> _]]]. }
    assert (Hge : count_outcomes status_ge_400 results = 3%nat).
    { rewrite (count_outcomes_ext status_ge_400 (with_status 500)); [assumption|].
      eapply List.Forall_impl; [|exact HC]. intros r. unfold status_ge_400, with_status.
      now intros [[-> _]|[[-> _]|[-> _]]]. }
    repeat split; [assumption | lia | assumption |].
    apply map_eq. intros c. rewrite Hhist.
    destruct (Z.eq_dec c 200) as [->|Hc200]; [|destruct (Z.eq_dec c 500) as [->|Hc500]].
    + rewrite H200. now rewrite lookup_insert_eq.
    + rewrite H500. rewrite lookup_insert_ne by discriminate. now rewrite lookup_singleton_eq.
    + rewrite lookup_insert_ne, lookup_singleton_ne by congruence.
      replace (count_outcomes (with_status c) results) with 0%nat; [reflexivity|].
      symmetry. rewrite (count_outcomes_ext _ (fun _ => false)).
      * unfold count_outcomes. clear. induction results; simpl; auto.
      * eapply List.Forall_impl; [|exact HC]. intros r. unfold with_status.
        intros [[-> _]|[[-> _]|[-> _]]]; [| |reflexivity]; lia.
Qed.

Lemma aggregate_meets_spec_witness :
  exists m : MetricsSummary,
    aggregate scenario_C_results 2 = Ok m
    /\ successful_requests m = 5%nat /\ failed_requests m = 5%nat
    /\ transport_errors m = 2%nat
    /\ status_codes m = {[ 200 := 5%nat; 500 := 3%nat ]}.
Proof.
  destruct (aggregate_meets_spec scenario_C_results 2)
    as (m & Hm & _ & _ & _ & _ & _ & _ & _ & _ & HC).
  exists m. split; [exact Hm|]. apply HC; try reflexivity.
  unfold scenario_C_results, scenario_C_outcome.
  repeat (apply List.Forall_cons;
          [first [ left; split; reflexivity
                 | right; left; split; reflexivity
                 | right; right; split; reflexivity ] |]).
  apply List.Forall_nil.
Defined.

(** ** Runs *)

Section RunProperties.

Variables (url method : string) (total : Z) (concurrency : Z).
Variable progress_callback : option callback.

Local Abbreviation step_ := (step url method total progress_callback).
Local Abbreviation exec_ := (exec url method total progress_callback).
Local Abbreviation gather_ := (gather url method total progress_callback).
Local Abbreviation init_ := (init total concurrency).

(** Every state of a run has what the first one has and every step keeps. *)
Lemma exec_invariant (P : run_state -> Prop) :
  (forall e st st', P st -> step_ e st = Some st' -> P st') ->
  forall sched st st', P st -> exec_ sched st = Some st' -> P st'.
Proof.
  intros Hstep. induction sched as [|e sched IH]; simpl; intros st st' HP Hex.
  - now inversion Hex; subst.
  - destruct (step_ e st) as [st1|] eqn:E; [|discriminate].
    eapply IH; [|exact Hex]. eapply Hstep; eassumption.
Qed.

Lemma exec_app (s1 s2 : list event) (st : run_state) :
  exec_ (s1 ++ s2) st
  = match exec_ s1 st with Some st1 => exec_ s2 st1 | None => None end.
Proof.
  revert st. induction s1 as [|e s1 IH]; simpl; intros st; [reflexivity|].
  destruct (step_ e st); [apply IH | reflexivity].
Qed.

(** A step is taken by one worker, and moves it one stage on. *)
Lemma step_inv (e : event) (st st' : run_state) :
  step_ e st = Some st' ->
  (exists i start, e = Acquire i start /\ tasks st !! i = Some Waiting
                   /\ (0 < sem_value st)%nat
                   /\ st' = worker_start method url i start st)
  \/ (exists i start r t now now',
        e = Complete i r t now now' /\ tasks st !! i = Some (InFlight start)
        /\ st' = worker_resume total progress_callback i start r t now now' st)
  \/ (exists i r, e = CallbackDone i /\ tasks st !! i = Some (InCallback r)
                  /\ st' = worker_finish i r st).
Proof.
  destruct e as [i start|i r t now now'|i]; simpl;
    destruct (tasks st !! i) as [[| | | |]|] eqn:E; try discriminate.
  - destruct (Nat.ltb_spec 0 (sem_value st)); [|discriminate].
    intros [= <-]. left. eauto 10.
  - intros [= <-]. right. left. eauto 12.
  - intros [= <-]. right. right. eauto 10.
Qed.

Lemma weigh_insert (w : task_state -> nat) (l : list task_state) (i : nat)
    (a b : task_state) :
  l !! i = Some a -> (weigh w (<[i := b]> l) + w a = weigh w l + w b)%nat.
Proof.
  unfold weigh. revert i. induction l as [|x l IH]; intros [|i]; simpl;
    try discriminate.
  - intros [= ->]. lia.
  - intros H. specialize (IH i H). lia.
Qed.

Lemma count_tasks_insert (f : task_state -> bool) (l : list task_state)
    (i : nat) (a b : task_state) :
  l !! i = Some a ->
  (count_tasks f (<[i := b]> l) + (if f a then 1 else 0)
   = count_tasks f l + (if f b then 1 else 0))%nat.
Proof. apply weigh_insert. Qed.

Lemma count_tasks_le (f : task_state -> bool) (l : list task_state) :
  (count_tasks f l <= length l)%nat.
Proof.
  unfold count_tasks, weigh. induction l as [|x l IH]; simpl; [lia|].
  destruct (f x); lia.
Qed.

Lemma count_tasks_replicate (f : task_state -> bool) (n : nat) (t : task_state) :
  count_tasks f (replicate n t) = if f t then n else 0%nat.
Proof.
  unfold count_tasks, weigh. induction n as [|n IH]; simpl.
  - now destruct (f t).
  - rewrite IH. now destruct (f t).
Qed.

Lemma init_consistent : consistent total concurrency init_.
Proof.
  split; simpl; rewrite ?count_tasks_replicate; simpl; try reflexivity.
  - lia.
  - apply length_replicate.
Qed.

Lemma step_consistent (e : event) (st st' : run_state) :
  consistent total concurrency st -> step_ e st = Some st' ->
  consistent total concurrency st'.
Proof.
  intros [Hc Hs Hr Hp Ht] Hstep.
  destruct (step_inv e st st' Hstep)
    as [(i & start & -> & Hi & Hsem & ->)
       |[(i & start & r & t & now & now' & -> & Hi & ->)
        |(i & r & -> & Hi & ->)]].
  - pose proof (count_tasks_insert started _ _ _ (InFlight start) Hi) as C1.
    pose proof (count_tasks_insert answered _ _ _ (InFlight start) Hi) as C2.
    pose proof (count_tasks_insert holds_permit _ _ _ (InFlight start) Hi) as C3.
    simpl in C1, C2, C3.
    split; simpl; rewrite ?length_app, ?length_insert; simpl; lia.
  - unfold worker_resume. destruct progress_callback as [cb|].
    + set (ev := mkProgress _ _ _ _ _).
      pose proof (count_tasks_insert started _ _ _ (InCallback (cb ev)) Hi) as C1.
      pose proof (count_tasks_insert answered _ _ _ (InCallback (cb ev)) Hi) as C2.
      pose proof (count_tasks_insert holds_permit _ _ _ (InCallback (cb ev)) Hi) as C3.
      simpl in C1, C2, C3.
      split; simpl; rewrite ?length_app, ?length_insert; simpl; lia.
    + pose proof (count_tasks_insert started _ _ _ Finished Hi) as C1.
      pose proof (count_tasks_insert answered _ _ _ Finished Hi) as C2.
      pose proof (count_tasks_insert holds_permit _ _ _ Finished Hi) as C3.
      simpl in C1, C2, C3.
      split; simpl; rewrite ?length_app, ?length_insert; simpl; lia.
  - set (t' := match r with CbReturn => Finished | CbRaise => Raised end).
    pose proof (count_tasks_insert started _ _ _ t' Hi) as C1.
    pose proof (count_tasks_insert answered _ _ _ t' Hi) as C2.
    pose proof (count_tasks_insert holds_permit _ _ _ t' Hi) as C3.
    assert (started t' = true /\ answered t' = true /\ holds_permit t' = false)
      as (E1 & E2 & E3) by (subst t'; destruct r; auto).
    rewrite E1 in C1. rewrite E2 in C2. rewrite E3 in C3. simpl in C1, C2, C3.
    split; unfold worker_finish; simpl; fold t'; rewrite ?length_insert; lia.
Qed.

Lemma reachable_consistent (sched : list event) (st : run_state) :
  exec_ sched init_ = Some st -> consistent total concurrency st.
Proof.
  apply exec_invariant; [|apply init_consistent].
  intros e s s' H Hs. eapply step_consistent; eassumption.
Qed.

(** *** Termination: every step uses up some of the work left *)

Lemma step_work (e : event) (st st' : run_state) :
  step_ e st = Some st' ->
  (S (weigh steps_left (tasks st')) <= weigh steps_left (tasks st))%nat.
Proof.
  intros Hstep.
  destruct (step_inv e st st' Hstep)
    as [(i & start & -> & Hi & Hsem & ->)
       |[(i & start & r & t & now & now' & -> & Hi & ->)
        |(i & r & -> & Hi & ->)]].
  - pose proof (weigh_insert steps_left _ _ _ (InFlight start) Hi) as W.
    simpl in *. lia.
  - unfold worker_resume. destruct progress_callback as [cb|].
    + set (ev := mkProgress _ _ _ _ _).
      pose proof (weigh_insert steps_left _ _ _ (InCallback (cb ev)) Hi) as W.
      simpl in *. lia.
    + pose proof (weigh_insert steps_left _ _ _ Finished Hi) as W.
      simpl in *. lia.
  - set (t' := match r with CbReturn => Finished | CbRaise => Raised end).
    pose proof (weigh_insert steps_left _ _ _ t' Hi) as W.
    assert (steps_left t' = 0%nat) as E by (subst t'; now destruct r).
    rewrite E in W. unfold worker_finish. simpl in *. fold t'. lia.
Qed.

Lemma exec_work (sched : list event) (st st' : run_state) :
  exec_ sched st = Some st' ->
  (length sched + weigh steps_left (tasks st') <= weigh steps_left (tasks st))%nat.
Proof.
  revert st. induction sched as [|e sched IH]; simpl; intros st Hex.
  - inversion Hex; subst. lia.
  - destruct (step_ e st) as [st1|] eqn:E; [|discriminate].
    apply IH in Hex. apply step_work in E. lia.
Qed.

Lemma init_work : weigh steps_left (tasks init_) = (3 * Z.to_nat total)%nat.
Proof.
  simpl. unfold weigh. induction (Z.to_nat total) as [|n IH]; simpl; [reflexivity|].
  rewrite IH. lia.
Qed.

(** *** What [gather] sees *)

Lemma poll_raised (st : run_state) :
  gather_poll st = GatherRaised <-> exists i, tasks st !! i = Some Raised.
Proof.
  unfold gather_poll. split.
  - destruct (existsb is_raised (tasks st)) eqn:E.
    + intros _. apply existsb_exists in E as (t & Hin & Ht).
      destruct t; try discriminate.
      apply list_elem_of_In, list_elem_of_lookup in Hin. exact Hin.
    + destruct (forallb is_finished (tasks st)); discriminate.
  - intros [i Hi]. replace (existsb is_raised (tasks st)) with true; [reflexivity|].
    symmetry. apply existsb_exists. exists Raised. split; [|reflexivity].
    apply list_elem_of_In, list_elem_of_lookup. eauto.
Qed.

Lemma poll_done (st : run_state) :
  gather_poll st = GatherDone <->
  forall i t, tasks st !! i = Some t -> t = Finished.
Proof.
  unfold gather_poll. split.
  - destruct (existsb is_raised (tasks st)); [discriminate|].
    destruct (forallb is_finished (tasks st)) eqn:E; [|discriminate].
    intros _ i t Hi. rewrite forallb_forall in E.
    assert (Hin : In t (tasks st)).
    { apply list_elem_of_In, list_elem_of_lookup. eauto. }
    apply E in Hin. now destruct t.
  - intros Hall.
    assert (E1 : existsb is_raised (tasks st) = false).
    { destruct (existsb is_raised (tasks st)) eqn:E; [|reflexivity].
      apply existsb_exists in E as (t & Hin & Ht).
      apply list_elem_of_In, list_elem_of_lookup in Hin as [i Hi].
      apply Hall in Hi. subst. discriminate. }
    assert (E2 : forallb is_finished (tasks st) = true).
    { apply forallb_forall. intros t Hin.
      apply list_elem_of_In, list_elem_of_lookup in Hin as [i Hi].
      apply Hall in Hi. now subst. }
    now rewrite E1, E2.
Qed.

(** The worker that takes a step has neither returned nor raised. *)
Lemma step_worker (e : event) (st st' : run_state) :
  step_ e st = Some st' ->
  exists i a b, tasks st !! i = Some a /\ a <> Finished /\ a <> Raised
                /\ tasks st' = <[i := b]> (tasks st).
Proof.
  intros Hstep.
  destruct (step_inv e st st' Hstep)
    as [(i & start & -> & Hi & Hsem & ->)
       |[(i & start & r & t & now & now' & -> & Hi & ->)
        |(i & r & -> & Hi & ->)]].
  - exists i, Waiting, (InFlight start). now repeat split.
  - unfold worker_resume. destruct progress_callback as [cb|]; simpl;
      eexists i, (InFlight start), _; now repeat split.
  - eexists i, (InCallback r), _. now repeat split.
Qed.

Lemma done_no_step (e : event) (st : run_state) :
  gather_poll st = GatherDone -> step_ e st = None.
Proof.
  intros Hd. destruct (step_ e st) as [st'|] eqn:E; [|reflexivity].
  apply step_worker in E as (i & a & b & Hi & Hf & _).
  rewrite poll_done in Hd. apply Hd in Hi. contradiction.
Qed.

Lemma step_raised (e : event) (st st' : run_state) :
  step_ e st = Some st' ->
  gather_poll st = GatherRaised -> gather_poll st' = GatherRaised.
Proof.
  intros Hstep. rewrite !poll_raised. intros [j Hj].
  apply step_worker in Hstep as (i & a & b & Hi & _ & Hr & ->).
  exists j. rewrite list_lookup_insert_ne; [assumption|].
  intros ->. congruence.
Qed.

Lemma exec_raised (sched : list event) (st st' : run_state) :
  exec_ sched st = Some st' ->
  gather_poll st = GatherRaised -> gather_poll st' = GatherRaised.
Proof.
  intros Hex Hr.
  apply (exec_invariant (fun s => gather_poll s = GatherRaised)) with sched st;
    [|assumption..].
  intros e s s' Hs Hstep. eapply step_raised; eassumption.
Qed.

(** A schedule that ends with all workers returned is one [gather]
    follows to its end. *)
Lemma gather_done (sched : list event) (st st' : run_state) :
  exec_ sched st = Some st' -> gather_poll st' = GatherDone ->
  gather_ sched st = GReturn st'.
Proof.
  revert st. induction sched as [|e sched IH]; simpl; intros st Hex Hd.
  - inversion Hex; subst. now rewrite Hd.
  - destruct (step_ e st) as [st1|] eqn:E; [|discriminate].
    destruct (gather_poll st) eqn:Hp.
    + now apply IH.
    + rewrite done_no_step in E by assumption. discriminate.
    + assert (gather_poll st' = GatherRaised).
      { eapply exec_raised; [exact Hex|]. eapply step_raised; eassumption. }
      congruence.
Qed.

(** Where [gather] stops is a state of the run. *)
Lemma gather_reaches (sched : list event) (st st' : run_state) :
  gather_ sched st = GReturn st' \/ gather_ sched st = GRaise st'
  \/ gather_ sched st = GSuspended st' ->
  exists pre, exec_ pre st = Some st' /\ (length pre <= length sched)%nat.
Proof.
  revert st. induction sched as [|e sched IH]; simpl; intros st.
  - destruct (gather_poll st); intros [[= <-]|[[= <-]|[= <-]]];
      exists []; simpl; auto.
  - destruct (gather_poll st).
    + destruct (step_ e st) as [st1|] eqn:E.
      * intros H. apply IH in H as (pre & Hpre & Hlen).
        exists (e :: pre). simpl. rewrite E. split; [assumption | lia].
      * intros [[=]|[[=]|[=]]].
    + intros [[= <-]|[[= <-]|[= <-]]]; exists []; simpl; split; auto; lia.
    + intros [[= <-]|[[= <-]|[= <-]]]; exists []; simpl; split; auto; lia.
Qed.

(** Past a state with a worker still at work, [gather] either goes on
    from there or has raised before. *)
Lemma gather_prefix (s1 s2 : list event) (st st1 : run_state) :
  exec_ s1 st = Some st1 -> gather_poll st1 <> GatherDone ->
  gather_ (s1 ++ s2) st = gather_ s2 st1
  \/ exists st_r, gather_ (s1 ++ s2) st = GRaise st_r.
Proof.
  revert st. induction s1 as [|e s1 IH]; intros st Hex Hnd.
  - inversion Hex; subst. now left.
  - simpl in Hex. destruct (step_ e st) as [st'|] eqn:E; [|discriminate].
    change ((e :: s1) ++ s2) with (e :: (s1 ++ s2)).
    simpl. destruct (gather_poll st) eqn:Hp.
    + rewrite E. now apply IH.
    + rewrite done_no_step in E by assumption. discriminate.
    + right. eauto.
Qed.

(** *** Progress: a run that is not over can go on *)

Lemma forallb_false {A : Type} (f : A -> bool) (l : list A) :
  forallb f l = false -> exists x, In x l /\ f x = false.
Proof.
  induction l as [|x l IH]; simpl; [discriminate|].
  destruct (f x) eqn:E; simpl.
  - intros H. destruct (IH H) as (y & Hin & Hy). eauto.
  - intros _. eauto.
Qed.

Lemma count_tasks_pos (f : task_state -> bool) (l : list task_state) :
  (0 < count_tasks f l)%nat -> exists i t, l !! i = Some t /\ f t = true.
Proof.
  unfold count_tasks, weigh. induction l as [|x l IH]; simpl; [lia|].
  destruct (f x) eqn:E.
  - intros _. exists 0%nat, x. now split.
  - intros H. destruct (IH H) as (i & t & Hi & Ht). exists (S i), t. now split.
Qed.

Lemma working_can_step (st : run_state) (i : nat) (t : task_state) :
  tasks st !! i = Some t -> holds_permit t = true ->
  exists e st', step_ e st = Some st'.
Proof.
  intros Hi Ht. destruct t as [|start|r| |]; try discriminate.
  - exists (Complete i TransportFailure 0 0 0). simpl. rewrite Hi. eauto.
  - exists (CallbackDone i). simpl. rewrite Hi. eauto.
Qed.

Lemma progress (st : run_state) :
  consistent total concurrency st -> 1 <= concurrency ->
  gather_poll st = GatherPending ->
  exists e st', step_ e st = Some st'.
Proof.
  intros [_ _ _ Hp _] Hc Hpoll. unfold gather_poll in Hpoll.
  destruct (existsb is_raised (tasks st)) eqn:Er; [discriminate|].
  destruct (forallb is_finished (tasks st)) eqn:Ef; [discriminate|].
  apply forallb_false in Ef as (t & Hin & Ht).
  apply list_elem_of_In, list_elem_of_lookup in Hin as [i Hi].
  destruct t as [|start|r| |]; try discriminate.
  - destruct (Nat.ltb_spec 0 (sem_value st)) as [Hs|Hs].
    + exists (Acquire i 0). simpl. rewrite Hi.
      destruct (Nat.ltb_spec 0 (sem_value st)); [eauto | lia].
    + destruct (count_tasks_pos holds_permit (tasks st)) as (j & t & Hj & Ht'); [lia|].
      eapply working_can_step; eassumption.
  - eapply working_can_step; [exact Hi | reflexivity].
  - eapply working_can_step; [exact Hi | reflexivity].
  - exfalso. assert (existsb is_raised (tasks st) = true); [|congruence].
    apply existsb_exists. exists Raised. split; [|reflexivity].
    apply list_elem_of_In, list_elem_of_lookup. eauto.
Qed.

(** *** A callback that never raises *)

Lemma step_calm (e : event) (st st' : run_state) :
  never_raises progress_callback ->
  Forall calm (tasks st) -> step_ e st = Some st' -> Forall calm (tasks st').
Proof.
  intros Hnr Hcalm Hstep.
  destruct (step_inv e st st' Hstep)
    as [(i & start & -> & Hi & Hsem & ->)
       |[(i & start & r & t & now & now' & -> & Hi & ->)
        |(i & r & -> & Hi & ->)]].
  - apply Forall_insert; [assumption | split; discriminate].
  - unfold worker_resume. destruct progress_callback as [cb|] eqn:Ecb; simpl.
    + apply Forall_insert; [assumption|].
      rewrite (Hnr cb eq_refl). split; discriminate.
    + apply Forall_insert; [assumption | split; discriminate].
  - simpl. apply Forall_insert; [assumption|].
    destruct r; [split; discriminate|].
    rewrite Forall_lookup in Hcalm. apply Hcalm in Hi as [_ Hi]. congruence.
Qed.

Lemma init_calm : Forall calm (tasks init_).
Proof. simpl. apply Forall_replicate. split; discriminate. Qed.

Lemma calm_not_raised (st : run_state) :
  Forall calm (tasks st) -> gather_poll st <> GatherRaised.
Proof.
  intros Hcalm Hr. apply poll_raised in Hr as [i Hi].
  rewrite Forall_lookup in Hcalm. apply Hcalm in Hi as [Hi _]. congruence.
Qed.

Lemma completion_exists (k : nat) (st : run_state) :
  never_raises progress_callback -> 1 <= concurrency ->
  (weigh steps_left (tasks st) <= k)%nat ->
  consistent total concurrency st -> Forall calm (tasks st) ->
  exists sched' st', exec_ sched' st = Some st' /\ gather_poll st' = GatherDone.
Proof.
  intros Hnr Hc. revert st. induction k as [|k IH]; intros st Hk Hcons Hcalm.
  - destruct (gather_poll st) eqn:Hp.
    + destruct (progress st Hcons Hc Hp) as (e & st' & Hs).
      apply step_work in Hs. lia.
    + exists [], st. now split.
    + now apply calm_not_raised in Hp.
  - destruct (gather_poll st) eqn:Hp.
    + destruct (progress st Hcons Hc Hp) as (e & st1 & Hs).
      destruct (IH st1) as (sched' & st' & Hex & Hd).
      * apply step_work in Hs. lia.
      * eapply step_consistent; eassumption.
      * eapply step_calm; eassumption.
      * exists (e :: sched'), st'. simpl. rewrite Hs. now split.
    + exists [], st. now split.
    + now apply calm_not_raised in Hp.
Qed.

Lemma reachable_calm (sched : list event) (st : run_state) :
  never_raises progress_callback ->
  exec_ sched init_ = Some st -> Forall calm (tasks st).
Proof.
  intros Hnr.
  apply (exec_invariant (fun s => Forall calm (tasks s))); [|apply init_calm].
  intros e s s' H Hs. eapply step_calm; eassumption.
Qed.

Lemma done_counts (st : run_state) :
  gather_poll st = GatherDone ->
  count_tasks started (tasks st) = length (tasks st)
  /\ count_tasks answered (tasks st) = length (tasks st).
Proof.
  rewrite poll_done. unfold count_tasks, weigh.
  induction (tasks st) as [|x l IH]; simpl; intros Hall; [split; reflexivity|].
  rewrite (Hall 0%nat x eq_refl). simpl.
  destruct IH as [-> ->]; [|split; reflexivity].
  intros i t Hi. apply (Hall (S i) t Hi).
Qed.

(** C2 (as the code has it).  With at least one request and at least one
    permit, a progress callback that does not raise (or none), and whatever
    the transport does (a response of any status, or a failure), a run goes
    to its end: it cannot go on forever (a run of n requests takes at most
    3n steps), it is never stuck nor aborted before all workers have
    returned, and once they have, the counter and the outcome collection
    both hold exactly n entries, for exactly n calls of the transport, and
    [run_load_test] returns a result for n requests. *)
Theorem run_load_test_completes (sched : list event) (st : run_state) :
  1 <= total -> 1 <= concurrency -> never_raises progress_callback ->
  exec_ sched init_ = Some st ->
  completed st = length (results st)
  /\ (length sched <= 3 * Z.to_nat total)%nat
  /\ gather_poll st <> GatherRaised
  /\ (gather_poll st = GatherPending -> exists e st', step_ e st = Some st')
  /\ (forall i start, tasks st !! i = Some (InFlight start) ->
      forall r t now now', exists st',
        step_ (Complete i r t now now') st = Some st'
        /\ length (results st') = S (length (results st)))
  /\ (exists sched' st', exec_ (sched ++ sched') init_ = Some st'
                         /\ gather_poll st' = GatherDone)
  /\ (gather_poll st = GatherDone ->
      Z.of_nat (completed st) = total
      /\ Z.of_nat (length (results st)) = total
      /\ Z.of_nat (length (sent st)) = total
      /\ forall t0 t1, exists r,
          run_load_test url method total concurrency progress_callback
                        (mkEnv t0 sched t1) = Returned r
          /\ Z.of_nat (total_requests (summary r)) = total).
Proof.
  intros Hn Hc Hnr Hex.
  pose proof (reachable_consistent sched st Hex) as Hcons.
  pose proof (reachable_calm sched st Hnr Hex) as Hcalm.
  pose proof (exec_work sched _ _ Hex) as Hwork. rewrite init_work in Hwork.
  split; [apply Hcons|]. split; [lia|].
  split; [now apply calm_not_raised|].
  split; [now apply progress|].
  split.
  { intros i start Hi r t now now'. eexists. simpl. rewrite Hi.
    split; [reflexivity|]. unfold worker_resume.
    destruct progress_callback; simpl; rewrite length_app; simpl; lia. }
  split.
  { destruct (completion_exists (weigh steps_left (tasks st)) st)
      as (sched' & st' & Hex' & Hd); auto.
    exists sched', st'. rewrite exec_app, Hex. now split. }
  intros Hd. destruct Hcons as [Hcomp Hsent Hres _ Hlen].
  destruct (done_counts st Hd) as [Es Ea].
  assert (Hr : Z.of_nat (length (results st)) = total) by lia.
  split; [lia|]. split; [assumption|]. split; [lia|].
  intros t0 t1. unfold run_load_test.
  destruct (Z.ltb_spec concurrency 0) as [?|_]; [lia|]. cbn [schedule].
  rewrite (gather_done sched _ st Hex Hd).
  rewrite aggregate_returns. eexists. split; [reflexivity|]. exact Hr.
Qed.

(** *** The permit pool *)

Lemma count_tasks_mono (f g : task_state -> bool) (l : list task_state) :
  (forall t, f t = true -> g t = true) ->
  (count_tasks f l <= count_tasks g l)%nat.
Proof.
  intros Hfg. unfold count_tasks, weigh.
  induction l as [|x l IH]; simpl; [lia|].
  destruct (f x) eqn:E; [rewrite (Hfg x E)|destruct (g x)]; lia.
Qed.

(** C9. In every state of a run under c permits, the workers holding a
    permit and the permits left in the pool add up to c: never more than
    c workers hold a permit, and never more than c calls of the transport
    are in flight.  The pool is the only throttle: a waiting worker is let
    in exactly when fewer than c workers hold a permit. *)
Theorem permits_bound_concurrency (sched : list event) (st : run_state) :
  0 <= concurrency ->
  exec_ sched init_ = Some st ->
  Z.of_nat (count_tasks holds_permit (tasks st)) + Z.of_nat (sem_value st)
  = concurrency
  /\ Z.of_nat (count_tasks holds_permit (tasks st)) <= concurrency
  /\ Z.of_nat (count_tasks in_flight (tasks st)) <= concurrency
  /\ (forall i start, tasks st !! i = Some Waiting ->
      (is_Some (step_ (Acquire i start) st)
       <-> Z.of_nat (count_tasks holds_permit (tasks st)) < concurrency)).
Proof.
  intros Hc Hex. destruct (reachable_consistent sched st Hex) as [_ _ _ Hp _].
  pose proof (count_tasks_mono in_flight holds_permit (tasks st)) as Hm.
  split; [lia|]. split; [lia|]. split.
  - assert (count_tasks in_flight (tasks st)
            <= count_tasks holds_permit (tasks st))%nat; [|lia].
    apply Hm. now intros [].
  - intros i start Hi. simpl. rewrite Hi.
    destruct (Nat.ltb_spec 0 (sem_value st)); split.
    + intros _. lia.
    + intros _. eauto.
    + intros [x Hx]. discriminate.
    + intros. lia.
Qed.

(** *** The time series *)

Lemma spaced_snoc (ts : list TimeseriesPoint) (b : TimeseriesPoint) :
  spaced ts ->
  (forall a, last ts = Some a -> (pt_timestamp a + (1 # 2) <= pt_timestamp b)%Q) ->
  spaced (ts ++ [b]).
Proof.
  intros Hs Hlast i x y Hx Hy.
  destruct (Nat.lt_ge_cases (S i) (length ts)) as [Hlt|Hge].
  - rewrite lookup_app_l in Hx by lia. rewrite lookup_app_l in Hy by lia.
    eapply Hs; eassumption.
  - assert (Hi : S i = length ts).
    { apply lookup_lt_Some in Hy. rewrite length_app in Hy. simpl in Hy. lia. }
    rewrite lookup_app_l in Hx by lia.
    rewrite lookup_app_r in Hy by lia.
    replace (S i - length ts)%nat with 0%nat in Hy by lia.
    simpl in Hy. inversion Hy; subst y.
    apply Hlast. rewrite last_lookup. rewrite <- Hi. exact Hx.
Qed.

Lemma should_sample_spaced (ts : list TimeseriesPoint) (now : Q) (a : TimeseriesPoint) :
  should_sample ts now = true -> last ts = Some a ->
  (pt_timestamp a + (1 # 2) <= now)%Q.
Proof.
  unfold should_sample. intros H Ha. rewrite Ha in H.
  apply Qle_bool_iff in H. lra.
Qed.

Lemma step_spaced (e : event) (st st' : run_state) :
  spaced (timeseries st) -> step_ e st = Some st' -> spaced (timeseries st').
Proof.
  intros Hsp Hstep.
  destruct (step_inv e st st' Hstep)
    as [(i & start & -> & Hi & Hsem & ->)
       |[(i & start & r & t & now & now' & -> & Hi & ->)
        |(i & r & -> & Hi & ->)]]; try exact Hsp.
  unfold worker_resume. destruct progress_callback as [cb|]; simpl; [|exact Hsp].
  destruct (should_sample (timeseries st) now) eqn:E; [|exact Hsp].
  apply spaced_snoc; [exact Hsp|]. intros a Ha. simpl.
  eapply should_sample_spaced; eassumption.
Qed.

(** C7. In every state of a run, and so in every returned time series,
    each point lies at least 0.5 seconds after the point before it: a
    point is appended to a non-empty series only when
    now - last.timestamp >= 0.5. *)
Theorem timeseries_is_spaced (sched : list event) (st : run_state) :
  exec_ sched init_ = Some st ->
  spaced (timeseries st)
  /\ (forall i start r t now now' st',
        tasks st !! i = Some (InFlight start) -> timeseries st <> [] ->
        step_ (Complete i r t now now') st = Some st' ->
        timeseries st' <> timeseries st ->
        exists a, last (timeseries st) = Some a
                  /\ (1 # 2 <= now - pt_timestamp a)%Q)
  /\ (forall t0 t1 r,
        run_load_test url method total concurrency progress_callback
                      (mkEnv t0 sched t1) = Returned r ->
        spaced (res_timeseries r)).
Proof.
  intros Hex.
  assert (Hall : forall s s', exec_ s init_ = Some s' -> spaced (timeseries s')).
  { intros s s'. apply (exec_invariant (fun x => spaced (timeseries x))).
    - intros e x x' Hx Hs. eapply step_spaced; eassumption.
    - intros i a b Ha. discriminate. }
  split; [eapply Hall; eassumption|]. split.
  - intros i start r t now now' st' Hi Hne. simpl. rewrite Hi. intros [= <-].
    unfold worker_resume. destruct progress_callback as [cb|]; simpl; [|congruence].
    unfold should_sample. destruct (last (timeseries st)) as [a|] eqn:Ha.
    + destruct (Qle_bool (1 # 2) (now - pt_timestamp a)) eqn:E; [|congruence].
      intros _. exists a. split; [reflexivity|]. now apply Qle_bool_iff.
    + apply last_None in Ha. contradiction.
  - intros t0 t1 r. unfold run_load_test.
    destruct (concurrency <? 0); [discriminate|]. cbn [schedule t_end t_begin].
    destruct (gather_ sched init_) as [s'| | |] eqn:G; try discriminate.
    destruct (aggregate _ _); [|discriminate]. intros [= <-]. simpl.
    destruct (gather_reaches sched init_ s') as (pre & Hpre & _); [auto|].
    eapply Hall; eassumption.
Qed.

(** What a completion does to the series when there is a callback. *)
Lemma resume_timeseries (cb : callback) (st : run_state) (i : nat) (start : Q)
    (r : transport_result) (t now now' : Q) :
  progress_callback = Some cb ->
  completed st = length (results st) ->
  let st' := worker_resume total progress_callback i start r t now now' st in
  timeseries st'
  = if should_sample (timeseries st) now
    then timeseries st ++ [sample_of (results st') now]
    else timeseries st.
Proof.
  intros -> Hc. unfold worker_resume, sample_of. simpl.
  rewrite length_app, Hc. simpl.
  replace (length (results st) + 1)%nat with (S (length (results st))) by lia.
  reflexivity.
Qed.

Lemma step_first_point (cb : callback) (e : event) (st st' : run_state) :
  progress_callback = Some cb ->
  completed st = length (results st) ->
  first_point_at_first_completion st -> step_ e st = Some st' ->
  first_point_at_first_completion st'.
Proof.
  intros Hcb Hc Hfp Hstep.
  destruct (step_inv e st st' Hstep)
    as [(i & start & -> & Hi & Hsem & ->)
       |[(i & start & r & t & now & now' & -> & Hi & ->)
        |(i & r & -> & Hi & ->)]]; try exact Hfp.
  right. unfold first_point_at_first_completion.
  rewrite (resume_timeseries cb st i start r t now now' Hcb Hc).
  assert (Hres : exists o, results (worker_resume total progress_callback i start
                                                   r t now now' st)
                           = results st ++ [o]).
  { unfold worker_resume. rewrite Hcb. simpl. eauto. }
  destruct Hres as [o ->].
  split; [now destruct (results st)|].
  destruct Hfp as [[Hr Ht]|[Hr (now0 & rest & Ht)]].
  - rewrite Hr, Ht. simpl. exists now, []. reflexivity.
  - rewrite Ht. destruct (results st) as [|o0 rs]; [congruence|]. simpl.
    destruct (should_sample _ _); eauto.
Qed.

(** C6 (as the code has it).  With a progress callback, every completion
    runs the sampler on the full outcome set: a point is appended iff the
    series is empty or at least 0.5 s have passed since its last point; so
    the first point of the series is the one taken at the first completion.
    Without a callback the sampler is never run and the series stays
    empty. *)
Theorem sampler_runs_with_callback (sched : list event) (st : run_state) :
  exec_ sched init_ = Some st ->
  (progress_callback = None -> timeseries st = [])
  /\ (progress_callback <> None ->
      first_point_at_first_completion st
      /\ forall i start r t now now',
          tasks st !! i = Some (InFlight start) ->
          exists st', step_ (Complete i r t now now') st = Some st'
            /\ timeseries st'
               = if should_sample (timeseries st) now
                 then timeseries st ++ [sample_of (results st') now]
                 else timeseries st).
Proof.
  intros Hex. split.
  - intros Hcb. revert Hex.
    apply (exec_invariant (fun x => timeseries x = [])); [|reflexivity].
    intros e s s' Hs Hstep.
    destruct (step_inv e s s' Hstep)
      as [(i & start & -> & Hi & Hsem & ->)
         |[(i & start & r & t & now & now' & -> & Hi & ->)
          |(i & r & -> & Hi & ->)]]; try exact Hs.
    unfold worker_resume. now rewrite Hcb.
  - intros Hne.
    assert (exists cb, progress_callback = Some cb) as [cb Hcb]
      by (destruct progress_callback; [eauto | congruence]).
    pose proof (reachable_consistent sched st Hex) as [Hc _ _ _ _].
    split.
    + assert (Hinv : consistent total concurrency st
                     /\ first_point_at_first_completion st); [|apply Hinv].
      revert Hex.
      apply (exec_invariant (fun x => consistent total concurrency x
                                      /\ first_point_at_first_completion x)).
      * intros e s s' [Hs Hfp] Hstep. split.
        -- eapply step_consistent; eassumption.
        -- apply (step_first_point cb e s s' Hcb); [apply Hs | exact Hfp | exact Hstep].
      * split; [apply init_consistent | left; split; reflexivity].
    + intros i start r t now now' Hi. eexists. simpl. rewrite Hi.
      split; [reflexivity|]. now apply (resume_timeseries cb).
Qed.

(** *** Progress events *)

Lemma step_events (cb : callback) (e : event) (st st' : run_state) :
  progress_callback = Some cb ->
  completed st = length (results st) ->
  events_describe total st -> step_ e st = Some st' ->
  events_describe total st'.
Proof.
  intros Hcb Hc [Hlen Hev] Hstep.
  destruct (step_inv e st st' Hstep)
    as [(i & start & -> & Hi & Hsem & ->)
       |[(i & start & r & t & now & now' & -> & Hi & ->)
        |(i & r & -> & Hi & ->)]]; try (split; assumption).
  unfold worker_resume. rewrite Hcb.
  set (o := match r with
            | Response status => mkOutcome ((t - start) * 1000) (Some status) false
            | TransportFailure => mkOutcome ((t - start) * 1000) None true
            end).
  unfold events_describe. simpl. rewrite !length_app. simpl.
  split; [lia|]. intros k ev Hk.
  destruct (Nat.lt_ge_cases k (length (emitted st))) as [Hlt|Hge].
  - rewrite lookup_app_l in Hk by assumption.
    rewrite take_app_le by lia. now apply Hev.
  - assert (k = length (emitted st)) as ->.
    { apply lookup_lt_Some in Hk. rewrite length_app in Hk. simpl in Hk. lia. }
    rewrite lookup_app_r in Hk by lia. rewrite Nat.sub_diag in Hk. simpl in Hk.
    inversion Hk; subst ev. simpl.
    rewrite take_ge by (rewrite length_app; simpl; lia).
    repeat split. lia.
Qed.

(** C8 (as the code has it).  With a callback, exactly one event is emitted
    per completed request, unthrottled, and the event of the k-th completion
    carries: completed = k, total = totalRequests, the average latency of
    the k outcomes so far rounded to two decimals, and the number of those
    outcomes with a status of 400 or more (transport errors not counted). *)
Theorem progress_events_describe_outcomes (sched : list event) (st : run_state) :
  progress_callback <> None ->
  exec_ sched init_ = Some st ->
  events_describe total st
  /\ forall i start r t now now',
      tasks st !! i = Some (InFlight start) ->
      exists st' ev, step_ (Complete i r t now now') st = Some st'
                     /\ emitted st' = emitted st ++ [ev]
                     /\ ev_timestamp ev = now'.
Proof.
  intros Hne Hex.
  assert (exists cb, progress_callback = Some cb) as [cb Hcb]
    by (destruct progress_callback; [eauto | congruence]).
  split.
  - assert (Hinv : consistent total concurrency st /\ events_describe total st);
      [|apply Hinv].
    revert Hex.
    apply (exec_invariant (fun x => consistent total concurrency x
                                    /\ events_describe total x)).
    + intros e s s' [Hs Hev] Hstep. split.
      * eapply step_consistent; eassumption.
      * apply (step_events cb e s s' Hcb); [apply Hs | exact Hev | exact Hstep].
    + split; [apply init_consistent|]. split; [reflexivity|].
      intros k ev Hk. discriminate.
  - intros i start r t now now' Hi. simpl. rewrite Hi.
    eexists _, _. split; [reflexivity|]. unfold worker_resume. rewrite Hcb.
    simpl. split; reflexivity.
Qed.

(** *** A callback that raises *)

(** C5 (as the code has it).  The exception of a progress callback is not
    caught: when the invocation that raises is over, the worker leaves with
    the exception (its outcome recorded, its permit given back), [gather]
    re-raises it, and [run_load_test] raises instead of returning a
    result. *)
Theorem callback_failure_aborts_run (sched rest : list event) (st : run_state)
    (i : nat) (t0 t1 : Q) :
  0 <= concurrency ->
  exec_ sched init_ = Some st ->
  tasks st !! i = Some (InCallback CbRaise) ->
  run_load_test url method total concurrency progress_callback
                (mkEnv t0 (sched ++ CallbackDone i :: rest) t1) = RaisedByCallback
  /\ exists st', step_ (CallbackDone i) st = Some st'
       /\ tasks st' !! i = Some Raised
       /\ gather_poll st' = GatherRaised
       /\ results st' = results st
       /\ sem_value st' = S (sem_value st).
Proof.
  intros Hc Hex Hi.
  assert (Hstep : step_ (CallbackDone i) st = Some (worker_finish i CbRaise st)).
  { simpl. now rewrite Hi. }
  assert (Hi' : tasks (worker_finish i CbRaise st) !! i = Some Raised).
  { simpl. apply list_lookup_insert_eq. now apply lookup_lt_Some in Hi. }
  assert (Hr : gather_poll (worker_finish i CbRaise st) = GatherRaised).
  { apply poll_raised. eauto. }
  split.
  2:{ exists (worker_finish i CbRaise st).
      split; [exact Hstep|]. split; [exact Hi'|]. split; [exact Hr|].
      split; reflexivity. }
  unfold run_load_test. destruct (Z.ltb_spec concurrency 0) as [?|_]; [lia|].
  cbn [schedule].
  assert (Hnd : gather_poll st <> GatherDone).
  { intros Hd. rewrite poll_done in Hd. apply Hd in Hi. discriminate. }
  destruct (gather_prefix sched (CallbackDone i :: rest) init_ st Hex Hnd)
    as [->|[st_r ->]]; [|reflexivity].
  change (gather_ (CallbackDone i :: rest) st)
    with (match gather_poll st with
          | GatherDone => GReturn st
          | GatherRaised => GRaise st
          | GatherPending =>
              match step_ (CallbackDone i) st with
              | Some st' => gather_ rest st'
              | None => GNotEnabled
              end
          end).
  destruct (gather_poll st); [|congruence|reflexivity].
  rewrite Hstep. destruct rest; simpl; now rewrite Hr.
Qed.

(** *** No validation in the engine *)

Lemma idle_no_step (e : event) (st : run_state) : idle st -> step_ e st = None.
Proof.
  intros (Hw & Hs & _). rewrite Forall_lookup in Hw.
  destruct e as [i start|i r t now now'|i]; simpl;
    destruct (tasks st !! i) as [t0|] eqn:Hi; try reflexivity;
    pose proof (Hw i t0 Hi) as ->; try reflexivity.
  destruct Hs as [->|Hs]; [reflexivity|]. rewrite Hs in Hi. discriminate.
Qed.

Lemma idle_exec (sched : list event) (st st' : run_state) :
  idle st -> exec_ sched st = Some st' -> st' = st.
Proof.
  intros Hidle. destruct sched as [|e sched]; simpl.
  - now intros [= <-].
  - now rewrite idle_no_step.
Qed.

(** C4 (as the code has it).  [run_load_test] validates nothing itself.
    With totalRequests < 1 or concurrency < 1 no request is ever issued: no
    outcome is recorded and the transport is not called.  A negative
    concurrency makes the semaphore's constructor raise ValueError before
    anything else; with totalRequests < 1 and concurrency >= 0 the call
    returns the summary of an empty run rather than an error. *)
Theorem no_requests_no_permits_no_dispatch (sched : list event) (st : run_state) :
  total < 1 \/ concurrency < 1 ->
  exec_ sched init_ = Some st ->
  results st = [] /\ sent st = [] /\ completed st = 0%nat
  /\ (concurrency < 0 -> forall env,
        run_load_test url method total concurrency progress_callback env
        = RaisedValueError)
  /\ (total < 1 -> 0 <= concurrency -> forall env, exists r,
        run_load_test url method total concurrency progress_callback env
        = Returned r
        /\ total_requests (summary r) = 0%nat
        /\ successful_requests (summary r) = 0%nat
        /\ failed_requests (summary r) = 0%nat
        /\ res_timeseries r = []).
Proof.
  intros Hbad Hex.
  assert (Hidle : idle init_).
  { unfold idle. simpl. split; [apply Forall_replicate; reflexivity|].
    split; [|now repeat split].
    destruct Hbad as [Hn|Hc]; [right | left].
    - now replace (Z.to_nat total) with 0%nat by lia.
    - lia. }
  apply (idle_exec sched) in Hex; [|assumption]. subst st.
  split; [reflexivity|]. split; [reflexivity|]. split; [reflexivity|]. split.
  - intros Hc env. unfold run_load_test.
    destruct (Z.ltb_spec concurrency 0); [reflexivity | lia].
  - intros Hn Hc env. unfold run_load_test.
    destruct (Z.ltb_spec concurrency 0) as [?|_]; [lia|].
    unfold init. replace (Z.to_nat total) with 0%nat by lia.
    destruct (schedule env); simpl; eexists; repeat split.
Qed.

End RunProperties.

(** ** The properties on sample runs *)

Lemma run_load_test_completes_witness :
  exists st,
    exec demo_url "GET" 2 None two_requests (init 2 1) = Some st
    /\ Z.of_nat (completed st) = 2 /\ Z.of_nat (length (results st)) = 2.
Proof.
  destruct (exec demo_url "GET" 2 None two_requests (init 2 1)) as [st|] eqn:E;
    [|vm_compute in E; discriminate].
  exists st. split; [reflexivity|].
  assert (Hd : gather_poll st = GatherDone).
  { pose proof E as E'. vm_compute in E'. injection E' as <-. reflexivity. }
  destruct (run_load_test_completes demo_url "GET" 2 1 None two_requests st)
    as (_ & _ & _ & _ & _ & _ & H); [lia | lia | intros f Hf; discriminate | exact E |].
  destruct (H Hd) as (H1 & H2 & _). now split.
Defined.

Lemma permits_bound_concurrency_witness :
  exists st,
    exec demo_url "GET" 2 (Some quiet_callback)
         [Acquire 0 0; Acquire 1 0] (init 2 2) = Some st
    /\ Z.of_nat (count_tasks holds_permit (tasks st)) <= 2.
Proof.
  destruct (exec demo_url "GET" 2 (Some quiet_callback)
                 [Acquire 0 0; Acquire 1 0] (init 2 2)) as [st|] eqn:E;
    [|vm_compute in E; discriminate].
  exists st. split; [reflexivity|].
  apply (permits_bound_concurrency demo_url "GET" 2 2 (Some quiet_callback)
           [Acquire 0 0; Acquire 1 0] st); [lia | exact E].
Defined.

Lemma timeseries_is_spaced_witness :
  exists st a b,
    exec demo_url "GET" 3 (Some quiet_callback) three_requests_spaced
         (init 3 3) = Some st
    /\ timeseries st = [a; b]
    /\ pt_completed a = 1%nat /\ pt_completed b = 3%nat
    /\ (pt_timestamp a + (1 # 2) <= pt_timestamp b)%Q.
Proof.
  destruct (exec demo_url "GET" 3 (Some quiet_callback) three_requests_spaced
                 (init 3 3)) as [st|] eqn:E; [|vm_compute in E; discriminate].
  destruct (timeseries_is_spaced demo_url "GET" 3 3 (Some quiet_callback)
              three_requests_spaced st E) as [Hsp _].
  assert (Hts : exists a b, timeseries st = [a; b]
                            /\ pt_completed a = 1%nat /\ pt_completed b = 3%nat).
  { vm_compute in E. injection E as <-. eexists _, _. repeat split. }
  destruct Hts as (a & b & Hts & Ha & Hb).
  exists st, a, b. split; [reflexivity|]. split; [exact Hts|].
  split; [exact Ha|]. split; [exact Hb|].
  apply (Hsp 0%nat a b); rewrite Hts; reflexivity.
Defined.

Lemma sampler_runs_with_callback_witness :
  exists st,
    exec demo_url "GET" 2 (Some quiet_callback) two_requests_with_callback
         (init 2 2) = Some st
    /\ first_point_at_first_completion st.
Proof.
  destruct (exec demo_url "GET" 2 (Some quiet_callback)
                 two_requests_with_callback (init 2 2)) as [st|] eqn:E;
    [|vm_compute in E; discriminate].
  exists st. split; [reflexivity|].
  apply (sampler_runs_with_callback demo_url "GET" 2 2 (Some quiet_callback)
           two_requests_with_callback st); [exact E | discriminate].
Defined.

Lemma progress_events_describe_outcomes_witness :
  exists st,
    exec demo_url "GET" 2 (Some quiet_callback) two_requests_with_callback
         (init 2 2) = Some st
    /\ events_describe 2 st.
Proof.
  destruct (exec demo_url "GET" 2 (Some quiet_callback)
                 two_requests_with_callback (init 2 2)) as [st|] eqn:E;
    [|vm_compute in E; discriminate].
  exists st. split; [reflexivity|].
  apply (progress_events_describe_outcomes demo_url "GET" 2 2 (Some quiet_callback)
           two_requests_with_callback st); [discriminate | exact E].
Defined.

Lemma callback_failure_aborts_run_witness :
  run_load_test demo_url "GET" 2 2 (Some failing_callback)
    (mkEnv 0 ([Acquire 0 0; Acquire 1 0;
               Complete 0 (Response 200) 0.005 100 100]
              ++ CallbackDone 0 :: [Complete 1 (Response 200) 0.006 100 100])
           1)
  = RaisedByCallback.
Proof.
  destruct (exec demo_url "GET" 2 (Some failing_callback)
                 [Acquire 0 0; Acquire 1 0;
                  Complete 0 (Response 200) 0.005 100 100] (init 2 2))
    as [st|] eqn:E; [|vm_compute in E; discriminate].
  apply (callback_failure_aborts_run demo_url "GET" 2 2 (Some failing_callback)
           _ _ st 0%nat); [lia | exact E |].
  vm_compute in E. injection E as <-. reflexivity.
Defined.

Lemma no_requests_no_permits_no_dispatch_witness :
  exists st,
    exec demo_url "GET" 0 None [] (init 0 5) = Some st
    /\ results st = [] /\ sent st = [].
Proof.
  exists (init 0 5). split; [reflexivity|].
  destruct (no_requests_no_permits_no_dispatch demo_url "GET" 0 5 None []
              (init 0 5)) as (H1 & H2 & _); [left; lia | reflexivity |].
  now split.
Defined.

(** ** Where the specification and the code part *)

(** C4 fails: a method outside the allowed set is not rejected.  With one
    request and one permit the transport is called with it and the
    outcome is recorded; the call returns a summary, not an error. *)
Lemma invalid_method_is_dispatched :
  ~ In "FOO"%string allowed_methods
  /\ exists st r,
       exec demo_url "FOO" 1 None one_request (init 1 1) = Some st
       /\ sent st = [("FOO"%string, demo_url)]
       /\ length (results st) = 1%nat
       /\ run_load_test demo_url "FOO" 1 1 None (mkEnv 0 one_request 1) = Returned r
       /\ total_requests (summary r) = 1%nat.
Proof.
  split.
  - unfold allowed_methods. simpl. intuition discriminate.
  - eexists _, _. repeat split; vm_compute; reflexivity.
Qed.

(** C2 fails when the callback raises: of two requests under one permit
    the first completes, its callback raises, and [run_load_test] raises with
    one outcome recorded, one request sent and the counter at 1; however the
    schedule goes on, the call does not return. *)
Lemma raising_callback_stops_dispatch :
  exists st,
    gather demo_url "GET" 2 (Some failing_callback)
           (one_request ++ [CallbackDone 0]) (init 2 1) = GRaise st
    /\ completed st = 1%nat /\ length (results st) = 1%nat
    /\ length (sent st) = 1%nat
    /\ forall rest t0 t1 r,
         run_load_test demo_url "GET" 2 1 (Some failing_callback)
           (mkEnv t0 (one_request ++ CallbackDone 0 :: rest) t1)
         <> Returned r.
Proof.
  eexists. split; [vm_compute; reflexivity|].
  split; [reflexivity|]. split; [reflexivity|]. split; [reflexivity|].
  intros rest t0 t1 r.
  assert (E : run_load_test demo_url "GET" 2 1 (Some failing_callback)
                (mkEnv t0 (one_request ++ CallbackDone 0 :: rest) t1)
              = RaisedByCallback).
  { unfold run_load_test, one_request. cbn [Z.ltb Z.compare schedule app].
    destruct rest; reflexivity. }
  rewrite E. discriminate.
Qed.

(** C10 fails for a rank so large that the position overflows: on 201
    latencies and p = 2^1023 the position k = 200*(p/100) is infinite (and
    so at least n), and the call raises OverflowError, not IndexError. *)
Lemma huge_rank_overflows :
  let latencies := repeat 1%float 201 in
  let p := 0x1p+1023%float in
  (2 <= length latencies)%nat
  /\ Prim2SF (rank64 (length latencies) p) = S754_infinity false
  /\ float_ge_int (rank64 (length latencies) p) (Z.of_nat (length latencies)) = true
  /\ percentile64 latencies p = Raises FOverflowError
  /\ percentile64 latencies p <> Raises FIndexError.
Proof.
  cbv zeta. split; [simpl; lia|].
  split; [vm_compute; reflexivity|]. split; [vm_compute; reflexivity|].
  assert (E : percentile64 (repeat 1%float 201) 0x1p+1023%float
              = Raises FOverflowError) by (vm_compute; reflexivity).
  split; [exact E|]. rewrite E. discriminate.
Qed.

(** C5 fails: a callback that raises makes [run_load_test] raise; no
    result is returned. *)
Lemma raising_callback_aborts :
  run_load_test demo_url "GET" 1 1 (Some failing_callback)
    (mkEnv 0 (one_request ++ [CallbackDone 0]) 1)
  = RaisedByCallback
  /\ forall r,
       run_load_test demo_url "GET" 1 1 (Some failing_callback)
         (mkEnv 0 (one_request ++ [CallbackDone 0]) 1)
       <> Returned r.
Proof.
  assert (H : run_load_test demo_url "GET" 1 1 (Some failing_callback)
                (mkEnv 0 (one_request ++ [CallbackDone 0]) 1)
              = RaisedByCallback) by (vm_compute; reflexivity).
  split; [exact H|]. intros r. rewrite H. discriminate.
Qed.

(** C6 fails: without a callback a request completes and the series
    stays empty. *)
Lemma no_callback_no_sample :
  exists r,
    run_load_test demo_url "GET" 1 1 None (mkEnv 0 one_request 1) = Returned r
    /\ total_requests (summary r) = 1%nat
    /\ res_timeseries r = [].
Proof. eexists. repeat split; vm_compute; reflexivity. Qed.

(** C8 fails: the average an event carries is rounded to two decimals,
    5.12 for the single latency 5.123456. *)
Lemma event_average_is_rounded :
  exists st ev,
    exec demo_url "GET" 1 (Some quiet_callback) one_request (init 1 1) = Some st
    /\ emitted st = [ev]
    /\ Qeq (running_avg (results st)) 5.123456
    /\ Qeq (ev_avg_latency_ms ev) 5.12
    /\ ~ Qeq (ev_avg_latency_ms ev) (running_avg (results st)).
Proof.
  eexists _, _. split; [vm_compute; reflexivity|].
  split; [reflexivity|]. repeat split; vm_compute; discriminate.
Qed.

(** * Further properties *)

(** ** The percentile outside the specification's cases *)


Lemma py_getitem_too_small {A : Type} (l : list A) (i : Z) :
  i < - Z.of_nat (length l) -> py_getitem l i = IndexError.
Proof.
  intros H. unfold py_getitem.
  assert (E0 : (i <? 0) = true) by lia.
  assert (E1 : (i + Z.of_nat (length l) <? 0) = true) by lia.
  rewrite E0. cbv zeta. now rewrite E1.
Qed.


Lemma length_insert_sorted64 (x : float) (l : list float) :
  length (insert_sorted64 x l) = S (length l).
Proof.
  induction l as [|y l IH]; simpl; [reflexivity|].
  destruct (PrimFloat.leb x y); simpl; congruence.
Qed.

Lemma length_sorted64 (l : list float) : length (sorted64 l) = length l.
Proof.
  induction l as [|x l IH]; simpl; [reflexivity|].
  now rewrite length_insert_sorted64, IH.
Qed.


Lemma getitem64_raises {A : Type} (l : list A) (i : Z) :
  i < - Z.of_nat (length l) \/ Z.of_nat (length l) <= i ->
  getitem64 l i = Raises FIndexError.
Proof.
  intros [H|H]; unfold getitem64.
  - now rewrite py_getitem_too_small.
  - now rewrite py_getitem_too_large.
Qed.

(** [percentile64] once [int(k)] has returned [f]. *)
Lemma percentile64_at (latencies : list float) (p : float) (f : Z) :
  latencies <> [] ->
  int_of_float (rank64 (length latencies) p) = Returns f ->
  let s := sorted64 latencies in
  let n := Z.of_nat (length latencies) in
  let k := rank64 (length latencies) p in
  let c := Z.min (f + 1) (n - 1) in
  percentile64 latencies p
  = if f =? c then getitem64 s f
    else match getitem64 s f with
         | Raises e => Raises e
         | Returns lo =>
             match getitem64 s c with
             | Raises e => Raises e
             | Returns hi =>
                 Returns (PrimFloat.add
                            (PrimFloat.mul lo (PrimFloat.sub (float_of_int c) k))
                            (PrimFloat.mul hi (PrimFloat.sub k (float_of_int f))))
             end
         end.
Proof.
  intros Hne Hf. unfold percentile64.
  destruct latencies as [|x l]; [congruence|].
  rewrite length_sorted64. cbv zeta. now rewrite Hf.
Qed.

(** A finite position at least [n] truncates to an index at least [n]. *)
Lemma int_of_float_ge (k : float) (n : Z) :
  0 < n -> finite64 k = true -> float_ge_int k n = true ->
  exists f, int_of_float k = Returns f /\ n <= f.
Proof.
  intros Hn. unfold finite64, float_ge_int, int_of_float.
  destruct (Prim2SF k) as [s|s| |s m e]; try discriminate.
  - intros _ H. apply Z.leb_le in H. lia.
  - intros _ H. cbv zeta in H.
    destruct s.
    + exfalso. destruct e as [|j|j]; apply Z.leb_le in H.
      * lia.
      * rewrite Z.shiftl_mul_pow2 in H by lia.
        pose proof (Z.pow_pos_nonneg 2 (Z.pos j)). nia.
      * rewrite Z.shiftl_mul_pow2 in H by lia.
        pose proof (Z.pow_pos_nonneg 2 (Z.pos j)). nia.
    + eexists. split; [reflexivity|]. cbv zeta.
      destruct e as [|j|j]; apply Z.leb_le in H.
      * exact H.
      * exact H.
      * rewrite Z.shiftl_mul_pow2 in H by lia.
        rewrite Z.shiftr_div_pow2 by lia.
        apply Z.div_le_lower_bound; [apply Z.pow_pos_nonneg; lia | lia].
Qed.

(** C10 (as the code has it).  [percentile] is partial outside [0,100]: on
    a list of n >= 2 latencies, every rank p whose position
    k = (n-1)*(p/100), as the code computes it, is finite and at least n
    makes the index f = int(k) exceed n-1, and the call raises IndexError.
    When k is infinite, int(k) raises OverflowError instead, and ValueError
    when k is NaN. *)
Theorem percentile64_index_error (latencies : list float) (p : float) :
  (2 <= length latencies)%nat ->
  let n := Z.of_nat (length latencies) in
  let k := rank64 (length latencies) p in
  (finite64 k = true -> float_ge_int k n = true ->
   percentile64 latencies p = Raises FIndexError)
  /\ (forall sign, Prim2SF k = S754_infinity sign ->
                   percentile64 latencies p = Raises FOverflowError)
  /\ (Prim2SF k = S754_nan -> percentile64 latencies p = Raises FValueError).
Proof.
  intros Hlen n k.
  assert (Hne : latencies <> []) by (destruct latencies; [simpl in Hlen; lia | discriminate]).
  split; [|split].
  - intros Hfin Hge.
    destruct (int_of_float_ge k n) as (f & Hf & Hn); [lia | exact Hfin | exact Hge |].
    rewrite (percentile64_at latencies p f Hne Hf). fold n.
    assert (E : (f =? Z.min (f + 1) (n - 1)) = false) by lia. rewrite E.
    rewrite getitem64_raises; [reflexivity|]. right. rewrite length_sorted64. exact Hn.
  - intros sign Hk. unfold percentile64.
    destruct latencies as [|x l]; [congruence|].
    rewrite length_sorted64. cbv zeta. fold k. unfold int_of_float. now rewrite Hk.
  - intros Hk. unfold percentile64.
    destruct latencies as [|x l]; [congruence|].
    rewrite length_sorted64. cbv zeta. fold k. unfold int_of_float. now rewrite Hk.
Qed.

Lemma percentile64_index_error_witness :
  percentile64 [10; 20]%float 200 = Raises FIndexError.
Proof.
  apply (percentile64_index_error [10; 20]%float 200);
    [simpl; lia | vm_compute; reflexivity | vm_compute; reflexivity].
Defined.



(** ** The order statistics *)

Lemma Qle_transitive : Relations_1.Transitive Qle.
Proof. intros x y z. apply Qle_trans. Qed.

(** In an ascending list a later element is not smaller. *)
Lemma sorted_nth_le (s : list Q) (i j : nat) :
  Sorted Qle s -> (i <= j < length s)%nat -> (nth i s 0 <= nth j s 0)%Q.
Proof.
  intros Hs. apply (Sorted_StronglySorted Qle_transitive) in Hs.
  revert i j. induction Hs as [|x s Hs IH Hx]; intros i j [Hij Hj].
  - simpl in Hj. lia.
  - destruct j as [|j]; [replace i with 0%nat by lia; apply Qle_refl|].
    destruct i as [|i]; simpl in *.
    + rewrite List.Forall_forall in Hx. apply Hx. apply nth_In. lia.
    + apply IH. lia.
Qed.

(** What [percentile_spec] is on a non-empty list, case by case. *)
Lemma percentile_spec_cases (l : list Q) (p : Q) :
  l <> [] -> (0 <= p)%Q -> (p <= 100)%Q ->
  let srt := sorted l in
  let n := Z.of_nat (length l) in
  let k := (inject_Z (n - 1) * (p / 100))%Q in
  let f := Qfloor k in
  0 <= f <= n - 1
  /\ (inject_Z f <= k)%Q /\ (k < inject_Z f + 1)%Q
  /\ ((f = n - 1 /\ percentile_spec l p = nth (Z.to_nat f) srt 0%Q)
      \/ (f < n - 1
          /\ percentile_spec l p
             = (nth (Z.to_nat f) srt 0 * (inject_Z (f + 1) - k)
                + nth (S (Z.to_nat f)) srt 0 * (k - inject_Z f))%Q)).
Proof.
  intros Hne H0 H1 srt n k f.
  assert (Hn : 1 <= n) by (subst n; destruct l; [congruence | simpl length; lia]).
  destruct (rank_bounds n p Hn H0 H1) as [Hk0 Hk1]. fold k in Hk0, Hk1.
  assert (Hf : 0 <= f <= n - 1).
  { split.
    - change 0 with (Qfloor 0). now apply Qfloor_resp_le.
    - rewrite <- (Qfloor_Z (n - 1)). now apply Qfloor_resp_le. }
  split; [exact Hf|]. split; [apply Qfloor_le|]. split.
  { pose proof (Qlt_floor k) as Hlt. fold f in Hlt.
    rewrite inject_Z_plus in Hlt. exact Hlt. }
  unfold percentile_spec. fold n. fold srt.
  destruct (Z.eqb_spec n 0) as [?|_]; [lia|]. cbv zeta. fold k. fold f.
  destruct (Z.eq_dec f (n - 1)) as [E|E].
  - left. split; [exact E|].
    replace (Z.min (f + 1) (n - 1)) with f by lia. now rewrite Z.eqb_refl.
  - right. split; [lia|].
    replace (Z.min (f + 1) (n - 1)) with (f + 1) by lia.
    destruct (Z.eqb_spec f (f + 1)) as [?|_]; [lia|].
    replace (Z.to_nat (f + 1)) with (S (Z.to_nat f)) by lia. reflexivity.
Qed.

(** ** The percentile and the order of the latencies *)

Ltac case_Qle x y :=
  let E := fresh "E" in
  destruct (Qle_bool x y) eqn:E;
  [ apply Qle_bool_iff in E
  | apply not_true_iff_false in E; rewrite Qle_bool_iff in E;
    apply Qnot_le_lt in E ].

Lemma Forall2_Qeq_refl (s : list Q) : Forall2 Qeq s s.
Proof. induction s; constructor; [reflexivity | assumption]. Qed.

Lemma Forall2_Qeq_trans (s1 s2 s3 : list Q) :
  Forall2 Qeq s1 s2 -> Forall2 Qeq s2 s3 -> Forall2 Qeq s1 s3.
Proof.
  intros H. revert s3. induction H as [|x y s1 s2 Hxy H IH]; intros s3 H23.
  - exact H23.
  - inversion H23; subst. constructor; [etransitivity; eassumption | now apply IH].
Qed.

Lemma insert_sorted_eqv (x x' : Q) (s s' : list Q) :
  Qeq x x' -> Forall2 Qeq s s' ->
  Forall2 Qeq (insert_sorted x s) (insert_sorted x' s').
Proof.
  intros Hx H. induction H as [|y y' s s' Hy H IH]; simpl.
  - constructor; [assumption | constructor].
  - case_Qle x y; case_Qle x' y'; try (exfalso; lra);
      repeat (constructor; try assumption).
Qed.

Lemma insert_sorted_comm (x y : Q) (s : list Q) :
  Forall2 Qeq (insert_sorted x (insert_sorted y s))
              (insert_sorted y (insert_sorted x s)).
Proof.
  induction s as [|e s IH]; simpl.
  - case_Qle x y; case_Qle y x; try (exfalso; lra);
      repeat (constructor; try lra).
  - case_Qle y e; case_Qle x e; simpl;
      repeat match goal with
             | |- context [Qle_bool ?a ?b] => case_Qle a b
             end;
      try (exfalso; lra);
      repeat (constructor; try lra);
      first [apply Forall2_Qeq_refl | exact IH].
Qed.

Lemma sorted_permutation (l l' : list Q) :
  Permutation l l' -> Forall2 Qeq (sorted l) (sorted l').
Proof.
  induction 1 as [|x l l' _ IH|x y l|l1 l2 l3 _ IH1 _ IH2]; simpl.
  - constructor.
  - apply insert_sorted_eqv; [reflexivity | assumption].
  - apply insert_sorted_comm.
  - eapply Forall2_Qeq_trans; eassumption.
Qed.

Lemma py_getitem_eqv (s s' : list Q) (i : Z) :
  Forall2 Qeq s s' -> result_eqv (py_getitem s i) (py_getitem s' i).
Proof.
  intros H. unfold py_getitem.
  rewrite <- (Forall2_length _ _ _ H).
  destruct ((_ <? 0) || _); [exact I|].
  generalize (Z.to_nat (if i <? 0 then i + Z.of_nat (length s) else i)).
  induction H as [|x y s s' Hxy H IH]; intros [|n]; simpl; try exact I.
  - exact Hxy.
  - apply IH.
Qed.

Lemma percentile_eqv_of_perm (latencies latencies' : list Q) (p : Q) :
  Permutation latencies latencies' ->
  result_eqv (percentile latencies p) (percentile latencies' p).
Proof.
  intros Hperm. pose proof (sorted_permutation _ _ Hperm) as Hs.
  pose proof (Permutation_length Hperm) as Hlen.
  unfold percentile.
  destruct latencies as [|x l]; destruct latencies' as [|x' l'];
    try discriminate; [simpl; reflexivity|].
  set (s := sorted (x :: l)) in *. set (s' := sorted (x' :: l')) in *.
  assert (Hl : length s = length s').
  { unfold s, s'. now rewrite !length_sorted. }
  rewrite <- Hl. cbv zeta.
  set (k := (inject_Z (Z.of_nat (length s) - 1) * (p / 100))%Q).
  set (f := py_int k). set (c := Z.min (f + 1) (Z.of_nat (length s) - 1)).
  pose proof (py_getitem_eqv s s' f Hs) as Hf.
  pose proof (py_getitem_eqv s s' c Hs) as Hc.
  destruct (f =? c); [exact Hf|].
  destruct (py_getitem s f) as [a|], (py_getitem s' f) as [a'|];
    simpl in *; try contradiction; try exact I.
  destruct (py_getitem s c) as [b|], (py_getitem s' c) as [b'|];
    simpl in *; try contradiction; try exact I.
  now rewrite Hf, Hc.
Qed.

(** X5. The percentile does not depend on the order of the latencies: two
    lists with the same elements give the same result, for every rank (an
    IndexError for both, or equal numbers). *)
Theorem percentile_permutation (latencies latencies' : list Q) (p : Q) :
  Permutation latencies latencies' ->
  result_eqv (percentile latencies p) (percentile latencies' p).
Proof. apply percentile_eqv_of_perm. Qed.

Lemma percentile_permutation_witness :
  result_eqv (percentile [30; 10; 20]%Q 90) (percentile [10; 20; 30]%Q 90).
Proof.
  apply percentile_permutation.
  apply perm_trans with [10; 30; 20]%Q; [apply perm_swap|].
  apply perm_skip, perm_swap.
Defined.

(** ** The summary beyond its definition *)

Lemma fold_sum_bounds (lo hi : Q) (l : list Q) (acc : Q) :
  List.Forall (Qle lo) l -> List.Forall (fun x => (x <= hi)%Q) l ->
  (acc + lo * inject_Z (Z.of_nat (length l)) <= fold_left Qplus l acc)%Q
  /\ (fold_left Qplus l acc <= acc + hi * inject_Z (Z.of_nat (length l)))%Q.
Proof.
  revert acc. induction l as [|x l IH]; intros acc Hlo Hhi.
  - simpl. change (inject_Z (Z.of_nat 0)) with 0%Q. split; lra.
  - inversion Hlo; subst. inversion Hhi; subst.
    destruct (IH (acc + x)%Q) as [IH1 IH2]; try assumption.
    cbn [fold_left length]. rewrite Nat2Z.inj_succ, <- Z.add_1_r, inject_Z_plus.
    change (inject_Z 1) with 1%Q. split; lra.
Qed.

Lemma mean_bounds (lo hi : Q) (l : list Q) :
  l <> [] -> List.Forall (Qle lo) l -> List.Forall (fun x => (x <= hi)%Q) l ->
  (lo <= mean l)%Q /\ (mean l <= hi)%Q.
Proof.
  intros Hne Hlo Hhi. unfold mean, py_sum.
  destruct (fold_sum_bounds lo hi l 0 Hlo Hhi) as [H1 H2].
  assert (Hn : (0 < inject_Z (Z.of_nat (length l)))%Q).
  { change 0%Q with (inject_Z 0). rewrite <- Zlt_Qlt.
    destruct l; [congruence | simpl length; lia]. }
  split.
  - apply Qle_shift_div_l; [assumption | lra].
  - apply Qle_shift_div_r; [assumption | lra].
Qed.

(** X6. In the summary of a non-empty outcome set the average latency
    lies between the minimum and the maximum: min <= avg <= max.
    ([statistics.mean] adds the latencies exactly and rounds once, so the
    float it returns stays between the two as well.) *)
Theorem summary_average_between (results : list Outcome) (t : Q) :
  results <> [] ->
  exists m, aggregate results t = Ok m
    /\ (lat_min (latency_ms m) <= lat_avg (latency_ms m))%Q
    /\ (lat_avg (latency_ms m) <= lat_max (latency_ms m))%Q.
Proof.
  intros Hne. eexists. split; [apply aggregate_returns|].
  cbn -[percentile_spec Counter mean py_min py_max].
  destruct results as [|r rs]; [congruence|].
  set (l := map elapsed_ms (r :: rs)).
  assert (Hl : l <> []) by discriminate.
  change (match l with [] => 0%Q | _ :: _ => mean l end) with (mean l).
  change (match l with [] => 0%Q | _ :: _ => py_min l end) with (py_min l).
  change (match l with [] => 0%Q | _ :: _ => py_max l end) with (py_max l).
  destruct (py_min_spec l Hl) as [_ Hmin].
  destruct (py_max_spec l Hl) as [_ Hmax].
  now apply mean_bounds.
Qed.

Lemma summary_average_between_witness :
  exists m, aggregate scenario_C_results 2 = Ok m
    /\ (lat_min (latency_ms m) <= lat_avg (latency_ms m))%Q
    /\ (lat_avg (latency_ms m) <= lat_max (latency_ms m))%Q.
Proof. apply summary_average_between. discriminate. Defined.

Lemma histogram_total_insert (m : gmap Z nat) (c : Z) :
  histogram_total (<[c := S (default 0%nat (m !! c))]> m) = S (histogram_total m).
Proof.
  unfold histogram_total.
  assert (Hcomm : forall (m' : gmap Z nat) (j1 j2 : Z) (z1 z2 y : nat),
             j1 <> j2 -> m' !! j1 = Some z1 -> m' !! j2 = Some z2 ->
             (z1 + (z2 + y) = z2 + (z1 + y))%nat) by (intros; lia).
  destruct (m !! c) as [d|] eqn:E; simpl.
  - rewrite <- (insert_delete_eq m c (S d)).
    rewrite map_fold_insert_L; [|apply Hcomm|apply lookup_delete_eq].
    rewrite (map_fold_delete_L _ _ c d m); [lia|apply Hcomm|exact E].
  - rewrite map_fold_insert_L; [lia|apply Hcomm|exact E].
Qed.

Lemma histogram_total_Counter (l : list Z) :
  histogram_total (Counter l) = length l.
Proof.
  unfold Counter.
  assert (H : forall m, histogram_total
                          (fold_left (fun m c => <[c := S (default 0%nat (m !! c))]> m) l m)
                        = (length l + histogram_total m)%nat).
  { induction l as [|c l IH]; intros m; simpl; [reflexivity|].
    rewrite IH, histogram_total_insert. lia. }
  rewrite H. unfold histogram_total. rewrite map_fold_empty. lia.
Qed.

Lemma filter_split_400 (rs : list Outcome) :
  length (List.filter has_status rs)
  = (length (List.filter status_lt_400 rs) + length (List.filter status_ge_400 rs))%nat.
Proof.
  induction rs as [|r rs IH]; simpl; [reflexivity|].
  unfold has_status at 1, status_lt_400 at 1, status_ge_400 at 1.
  destruct (status_code r) as [s|]; [|exact IH].
  destruct (Z.ltb_spec s 400), (Z.leb_spec 400 s); simpl; lia.
Qed.

(** X7. The histogram of status codes counts each response once and no
    transport error: its counts add up to
    successful + (failed - transport errors). *)
Theorem histogram_counts_responses (results : list Outcome) (t : Q) :
  exists m, aggregate results t = Ok m
    /\ histogram_total (status_codes m)
       = (successful_requests m + (failed_requests m - transport_errors m))%nat
    /\ histogram_total (status_codes m) = count_outcomes has_status results.
Proof.
  eexists. split; [apply aggregate_returns|]. cbn -[percentile_spec Counter].
  rewrite histogram_total_Counter, filter_status_lt_400, filter_status_ge_400.
  assert (Hlen : length (omap status_code (List.filter has_status results))
                 = length (List.filter has_status results)).
  { induction results as [|[e [s|] te] rs IH]; [reflexivity| |exact IH].
    change (S (length (omap status_code (List.filter has_status rs)))
            = S (length (List.filter has_status rs))).
    now f_equal. }
  rewrite Hlen, filter_split_400. unfold count_outcomes.
  rewrite filter_split_400. split; lia.
Qed.

(** ** The summary and the order of completion *)

Lemma filter_length_perm {A : Type} (P : A -> bool) (l l' : list A) :
  Permutation l l' -> length (List.filter P l) = length (List.filter P l').
Proof.
  induction 1 as [|x l l' _ IH|x y l|l1 l2 l3 _ IH1 _ IH2]; simpl.
  - reflexivity.
  - destruct (P x); simpl; congruence.
  - destruct (P x), (P y); reflexivity.
  - congruence.
Qed.

Lemma fold_sum_acc (l : list Q) (acc : Q) :
  Qeq (fold_left Qplus l acc) (acc + fold_left Qplus l 0)%Q.
Proof.
  revert acc. induction l as [|x l IH]; intros acc; simpl.
  - lra.
  - rewrite (IH (acc + x)%Q), (IH (0 + x)%Q). lra.
Qed.

Lemma py_sum_perm (l l' : list Q) :
  Permutation l l' -> Qeq (py_sum l) (py_sum l').
Proof.
  unfold py_sum.
  induction 1 as [|x l l' _ IH|x y l|l1 l2 l3 _ IH1 _ IH2]; simpl.
  - reflexivity.
  - rewrite (fold_sum_acc l), (fold_sum_acc l'), IH. reflexivity.
  - rewrite (fold_sum_acc l (0 + y + x)), (fold_sum_acc l (0 + x + y)). lra.
  - etransitivity; eassumption.
Qed.

Lemma py_min_perm (l l' : list Q) :
  l <> [] -> Permutation l l' -> Qeq (py_min l) (py_min l').
Proof.
  intros Hne Hp.
  assert (Hne' : l' <> []).
  { intros ->. apply Permutation_sym, Permutation_nil in Hp. congruence. }
  destruct (py_min_spec l Hne) as [Hin Hall].
  destruct (py_min_spec l' Hne') as [Hin' Hall'].
  rewrite List.Forall_forall in Hall, Hall'.
  apply Qle_antisym.
  - apply Hall. eapply Permutation_in; [apply Permutation_sym|]; eassumption.
  - apply Hall'. eapply Permutation_in; eassumption.
Qed.

Lemma py_max_perm (l l' : list Q) :
  l <> [] -> Permutation l l' -> Qeq (py_max l) (py_max l').
Proof.
  intros Hne Hp.
  assert (Hne' : l' <> []).
  { intros ->. apply Permutation_sym, Permutation_nil in Hp. congruence. }
  destruct (py_max_spec l Hne) as [Hin Hall].
  destruct (py_max_spec l' Hne') as [Hin' Hall'].
  rewrite List.Forall_forall in Hall, Hall'.
  apply Qle_antisym.
  - apply Hall'. eapply Permutation_in; eassumption.
  - apply Hall. eapply Permutation_in; [apply Permutation_sym|]; eassumption.
Qed.

Lemma percentile_spec_perm (l l' : list Q) (p : Q) :
  (0 <= p)%Q -> (p <= 100)%Q -> Permutation l l' ->
  Qeq (percentile_spec l p) (percentile_spec l' p).
Proof.
  intros H0 H1 Hp. pose proof (percentile_eqv_of_perm l l' p Hp) as H.
  rewrite !percentile_in_range in H by assumption. exact H.
Qed.

(** X8. The summary does not depend on the order in which the requests
    completed: two outcome sets with the same outcomes give the same
    counts and histogram and equal rate, average, minimum, maximum and
    percentiles. *)
Theorem summary_order_independent (results results' : list Outcome) (t : Q) :
  Permutation results results' ->
  exists m m', aggregate results t = Ok m /\ aggregate results' t = Ok m'
               /\ summary_eqv m m'.
Proof.
  intros Hp. eexists _, _.
  split; [apply aggregate_returns|]. split; [apply aggregate_returns|].
  unfold summary_eqv. cbn -[percentile_spec Counter mean py_min py_max].
  rewrite !filter_status_lt_400, !filter_status_ge_400.
  pose proof (Permutation_length Hp) as Hlen.
  pose proof (Permutation_map elapsed_ms Hp) as Hl.
  rewrite !(filter_length_perm _ _ _ Hp), Hlen.
  split; [reflexivity|]. split; [reflexivity|]. split; [reflexivity|].
  split; [reflexivity|]. split.
  { apply map_eq. intros c. rewrite !Counter_lookup, !count_occ_status.
    unfold count_outcomes. now rewrite (filter_length_perm _ _ _ Hp). }
  split; [reflexivity|].
  assert (Hperc : forall p, (0 <= p)%Q -> (p <= 100)%Q ->
            Qeq (percentile_spec (map elapsed_ms results) p)
                (percentile_spec (map elapsed_ms results') p)).
  { intros p H0 H1. now apply percentile_spec_perm. }
  destruct results as [|r rs].
  { apply Permutation_nil in Hp. subst results'. simpl. now repeat split. }
  destruct results' as [|r' rs'].
  { apply Permutation_sym, Permutation_nil in Hp. discriminate. }
  set (l := map elapsed_ms (r :: rs)) in *.
  set (l' := map elapsed_ms (r' :: rs')) in *.
  assert (Hne : l <> []) by discriminate.
  change (match l with [] => 0%Q | _ :: _ => mean l end) with (mean l).
  change (match l with [] => 0%Q | _ :: _ => py_min l end) with (py_min l).
  change (match l with [] => 0%Q | _ :: _ => py_max l end) with (py_max l).
  change (match l' with [] => 0%Q | _ :: _ => mean l' end) with (mean l').
  change (match l' with [] => 0%Q | _ :: _ => py_min l' end) with (py_min l').
  change (match l' with [] => 0%Q | _ :: _ => py_max l' end) with (py_max l').
  split.
  { unfold mean. rewrite (py_sum_perm l l' Hl), (Permutation_length Hl).
    reflexivity. }
  split; [now apply py_min_perm|]. split; [now apply py_max_perm|].
  repeat split; apply Hperc; vm_compute; discriminate.
Qed.

Lemma summary_order_independent_witness :
  exists m m',
    aggregate [mkOutcome 5 (Some 200) false; mkOutcome 9 None true] 1 = Ok m
    /\ aggregate [mkOutcome 9 None true; mkOutcome 5 (Some 200) false] 1 = Ok m'
    /\ summary_eqv m m'.
Proof. apply summary_order_independent. apply perm_swap. Defined.

(** ** Runs beyond the specification's cases *)

Section RunFurther.

Variables (url method : string) (total : Z) (concurrency : Z).
Variable progress_callback : option callback.

Local Abbreviation step_ := (step url method total progress_callback).
Local Abbreviation exec_ := (exec url method total progress_callback).
Local Abbreviation gather_ := (gather url method total progress_callback).
Local Abbreviation init_ := (init total concurrency).
Local Abbreviation run_ := (run_load_test url method total concurrency progress_callback).

Lemma step_classified (e : event) (st st' : run_state) :
  Forall classified (results st) -> step_ e st = Some st' ->
  Forall classified (results st').
Proof.
  intros Hc Hstep.
  destruct (step_inv url method total progress_callback e st st' Hstep)
    as [(i & start & -> & Hi & Hsem & ->)
       |[(i & start & r & t & now & now' & -> & Hi & ->)
        |(i & r & -> & Hi & ->)]]; try exact Hc.
  assert (Hnew : forall o, classified o -> Forall classified (results st ++ [o])).
  { intros o Ho. apply Forall_app. split; [exact Hc | now constructor]. }
  unfold worker_resume. destruct progress_callback; simpl; apply Hnew;
    destruct r; unfold classified; simpl; eauto.
Qed.

Lemma reachable_classified (sched : list event) (st : run_state) :
  exec_ sched init_ = Some st -> Forall classified (results st).
Proof.
  apply (exec_invariant url method total progress_callback (fun x => Forall classified (results x))).
  - intros e s s' H Hs. eapply step_classified; eassumption.
  - constructor.
Qed.

Lemma count_classified (rs : list Outcome) :
  Forall classified rs ->
  length rs = (length (List.filter status_lt_400 rs)
               + length (List.filter status_ge_400 rs)
               + length (List.filter is_transport_error rs))%nat.
Proof.
  induction 1 as [|r rs Hr _ IH]; simpl; [reflexivity|].
  unfold status_lt_400 at 1, status_ge_400 at 1.
  destruct Hr as [(s & -> & ->)|[-> ->]]; simpl.
  - destruct (Z.ltb_spec s 400), (Z.leb_spec 400 s); simpl; lia.
  - lia.
Qed.

Lemma gather_return_done (sched : list event) (st0 st : run_state) :
  gather_ sched st0 = GReturn st -> gather_poll st = GatherDone.
Proof.
  revert st0. induction sched as [|e sched IH]; simpl; intros st0.
  - destruct (gather_poll st0) eqn:E; intros [= <-]. exact E.
  - destruct (gather_poll st0) eqn:E.
    + destruct (step_ e st0); [apply IH | discriminate].
    + intros [= <-]. exact E.
    + discriminate.
Qed.

(** What is behind a returned result: a state of the run in which all
    workers have returned, and its summary. *)
Lemma returned_inv (env : environment) (r : LoadTestResult) :
  run_ env = Returned r ->
  exists pre st,
    exec_ pre init_ = Some st /\ gather_poll st = GatherDone
    /\ aggregate (results st) (t_end env - t_begin env) = Ok (summary r)
    /\ res_timeseries r = timeseries st.
Proof.
  unfold run_load_test. destruct (concurrency <? 0); [discriminate|].
  destruct (gather_ (schedule env) init_) as [st|st|st|] eqn:G; try discriminate.
  destruct (aggregate _ _) as [m|] eqn:A; [|discriminate]. intros [= <-].
  destruct (gather_reaches url method total progress_callback (schedule env) init_ st) as (pre & Hpre & _);
    [auto|].
  exists pre, st. split; [exact Hpre|].
  split; [eapply gather_return_done; exact G|]. now split.
Qed.

(** X9. Whenever [run_load_test] returns, with or without a callback, its
    summary accounts for every request exactly once: total_requests is the
    number of requests asked for (0 if that is negative), each is either
    successful or failed, and each recorded outcome is either a response
    with a status or a transport error without one. *)
Theorem returned_summary_accounts (env : environment) (r : LoadTestResult) :
  run_ env = Returned r ->
  total_requests (summary r) = Z.to_nat total
  /\ (successful_requests (summary r) + failed_requests (summary r))%nat
     = total_requests (summary r)
  /\ (transport_errors (summary r) <= failed_requests (summary r))%nat
  /\ total_time_seconds (summary r) = (t_end env - t_begin env)%Q.
Proof.
  intros Hr. destruct (returned_inv env r Hr) as (pre & st & Hex & Hd & Hagg & _).
  destruct (reachable_consistent url method total concurrency progress_callback pre st Hex) as [_ _ Hres _ Hlen].
  destruct (done_counts st Hd) as [_ Ea].
  pose proof (count_classified _ (reachable_classified pre st Hex)) as Hcount.
  rewrite aggregate_returns in Hagg. injection Hagg as <-.
  cbn -[percentile_spec Counter].
  rewrite filter_status_lt_400, filter_status_ge_400.
  repeat split; lia.
Qed.

(** *** The shared objects only grow *)

Lemma step_extends (e : event) (st st' : run_state) :
  step_ e st = Some st' -> extends st st'.
Proof.
  intros Hstep. unfold extends.
  destruct (step_inv url method total progress_callback e st st' Hstep)
    as [(i & start & -> & Hi & Hsem & ->)
       |[(i & start & r & t & now & now' & -> & Hi & ->)
        |(i & r & -> & Hi & ->)]].
  - simpl. repeat split; try reflexivity; try lia. now apply prefix_app_r.
  - unfold worker_resume. destruct progress_callback; simpl;
      repeat split; try reflexivity; try lia; try (now apply prefix_app_r).
    destruct (should_sample _ _); [now apply prefix_app_r | reflexivity].
  - simpl. repeat split; try reflexivity; lia.
Qed.

(** X10. Results, time series, emitted events and sent requests are
    append-only, and the counter never decreases: whatever a state holds
    is still there, unchanged and in the same place, in every later
    state. *)
Theorem shared_state_is_append_only (sched : list event) (st st' : run_state) :
  exec_ sched st = Some st' -> extends st st'.
Proof.
  revert st. induction sched as [|e sched IH]; simpl; intros st Hex.
  - inversion Hex; subst. unfold extends. repeat split; reflexivity || lia.
  - destruct (step_ e st) as [st1|] eqn:E; [|discriminate].
    apply step_extends in E. apply IH in Hex.
    destruct E as (E1 & E2 & E3 & E4 & E5), Hex as (H1 & H2 & H3 & H4 & H5).
    unfold extends. repeat split; try (etransitivity; eassumption); lia.
Qed.

(** *** No permit at all *)

(** X11. With concurrency = 0 and at least one request the run hangs: no
    worker ever gets a permit, no request is issued, and [run_load_test]
    neither returns nor raises, whatever the environment does. *)
Theorem zero_permits_hang (env : environment) :
  concurrency = 0 -> 1 <= total ->
  (schedule env = [] -> run_ env = Suspended)
  /\ (schedule env <> [] -> run_ env = NotEnabled)
  /\ (forall e, step_ e init_ = None)
  /\ (forall r, run_ env <> Returned r).
Proof.
  intros Hc Hn.
  assert (Hidle : idle init_).
  { unfold idle. simpl. split; [apply Forall_replicate; reflexivity|].
    split; [left; lia | now repeat split]. }
  assert (Hpoll : gather_poll init_ = GatherPending).
  { unfold gather_poll. simpl.
    destruct (Z.to_nat total) as [|n] eqn:E; [lia|]. simpl.
    replace (existsb is_raised (replicate n Waiting)) with false; [reflexivity|].
    clear. induction n; simpl; auto. }
  assert (Hrun : run_ env = match schedule env with [] => Suspended | _ => NotEnabled end).
  { unfold run_load_test. destruct (Z.ltb_spec concurrency 0); [lia|].
    destruct (schedule env) as [|e sched]; simpl; rewrite Hpoll; [reflexivity|].
    now rewrite (idle_no_step url method total progress_callback e _ Hidle). }
  split; [intros E; now rewrite Hrun, E|].
  split; [intros E; rewrite Hrun; now destruct (schedule env)|].
  split; [intros e; now apply idle_no_step|].
  intros r. rewrite Hrun. destruct (schedule env); discriminate.
Qed.

End RunFurther.

Lemma returned_summary_accounts_witness :
  exists r,
    run_load_test demo_url "GET" 2 1 None (mkEnv 0 two_requests 11) = Returned r
    /\ total_requests (summary r) = 2%nat
    /\ (successful_requests (summary r) + failed_requests (summary r))%nat = 2%nat.
Proof.
  destruct (run_load_test demo_url "GET" 2 1 None (mkEnv 0 two_requests 11))
    as [r| | | | |] eqn:E; try (vm_compute in E; discriminate).
  exists r. split; [reflexivity|].
  destruct (returned_summary_accounts demo_url "GET" 2 1 None _ r E)
    as (H1 & H2 & _).
  rewrite H2, H1. now split.
Defined.

Lemma shared_state_is_append_only_witness :
  exists st st',
    exec demo_url "GET" 2 None [Acquire 0 0; Complete 0 (Response 200) 0.005 100 100]
         (init 2 1) = Some st
    /\ exec demo_url "GET" 2 None two_requests (init 2 1) = Some st'
    /\ extends st st'.
Proof.
  destruct (exec demo_url "GET" 2 None
                 [Acquire 0 0; Complete 0 (Response 200) 0.005 100 100] (init 2 1))
    as [st|] eqn:E; [|vm_compute in E; discriminate].
  destruct (exec demo_url "GET" 2 None
                 [Acquire 1 0.005; Complete 1 TransportFailure 10.005 110 110] st)
    as [st'|] eqn:E'.
  2:{ vm_compute in E. injection E as <-. vm_compute in E'. discriminate. }
  exists st, st'. split; [reflexivity|]. split.
  - change two_requests
      with ([Acquire 0 0; Complete 0 (Response 200) 0.005 100 100]
            ++ [Acquire 1 0.005; Complete 1 TransportFailure 10.005 110 110]).
    rewrite exec_app, E. exact E'.
  - eapply shared_state_is_append_only. exact E'.
Defined.

Lemma zero_permits_hang_witness :
  run_load_test demo_url "GET" 3 0 None (mkEnv 0 [] 1) = Suspended.
Proof.
  apply (zero_permits_hang demo_url "GET" 3 0 None (mkEnv 0 [] 1)); [reflexivity | lia | reflexivity].
Defined.

Section RunFurther2.

Variables (url method : string) (total : Z) (concurrency : Z).
Variable progress_callback : option callback.

Local Abbreviation step_ := (step url method total progress_callback).
Local Abbreviation exec_ := (exec url method total progress_callback).
Local Abbreviation init_ := (init total concurrency).

(** *** The series and the events *)

Lemma step_sampled (e : event) (st st' : run_state) :
  sampled_from_events st -> step_ e st = Some st' -> sampled_from_events st'.
Proof.
  intros (Hm & Hinc & Hlen) Hstep.
  destruct (step_inv url method total progress_callback e st st' Hstep)
    as [(i & start & -> & Hi & Hsem & ->)
       |[(i & start & r & t & now & now' & -> & Hi & ->)
        |(i & r & -> & Hi & ->)]]; try (split; [|split]; assumption).
  unfold worker_resume. destruct progress_callback as [cb|].
  - set (o := match r with
              | Response status => mkOutcome ((t - start) * 1000) (Some status) false
              | TransportFailure => mkOutcome ((t - start) * 1000) None true
              end).
    unfold sampled_from_events. simpl.
    set (ev := mkProgress _ _ _ _ _).
    destruct (should_sample (timeseries st) now).
    + split; [|split].
      * intros pt Hpt. apply elem_of_app in Hpt as [Hpt|Hpt].
        -- destruct (Hm pt Hpt) as (Hle & ev0 & Hev0 & Hpm). split; [lia|].
           exists ev0. split; [|exact Hpm]. apply elem_of_app. now left.
        -- apply list_elem_of_singleton in Hpt as ->. simpl. split; [lia|].
           exists ev. split; [|now repeat split].
           apply elem_of_app. right. now apply list_elem_of_singleton.
      * intros j a b Ha Hb.
        destruct (Nat.lt_ge_cases (S j) (length (timeseries st))) as [Hlt|Hge].
        -- rewrite lookup_app_l in Ha by lia. rewrite lookup_app_l in Hb by lia.
           eapply Hinc; eassumption.
        -- assert (Hj : S j = length (timeseries st)).
           { apply lookup_lt_Some in Hb. rewrite length_app in Hb. simpl in Hb. lia. }
           rewrite lookup_app_l in Ha by lia.
           rewrite lookup_app_r in Hb by lia.
           replace (S j - length (timeseries st))%nat with 0%nat in Hb by lia.
           simpl in Hb. inversion Hb; subst b. simpl.
           assert (Hin : a ∈ timeseries st) by (eapply list_elem_of_lookup_2; exact Ha).
           destruct (Hm a Hin) as [Hle _]. lia.
      * rewrite !length_app. simpl. lia.
    + split; [|split].
      * intros pt Hpt. destruct (Hm pt Hpt) as (Hle & ev0 & Hev0 & Hpm).
        split; [lia|]. exists ev0. split; [|exact Hpm]. apply elem_of_app. now left.
      * exact Hinc.
      * rewrite length_app. simpl. lia.
  - unfold sampled_from_events. simpl. split; [|split]; try assumption.
    intros pt Hpt. destruct (Hm pt Hpt) as (Hle & Hev). split; [lia | exact Hev].
Qed.

(** X12. The time series is a sample of the progress events: every point
    carries the completed count, average and error count of one of the
    emitted events, the completed counts of the points increase strictly,
    and there are never more points than events. *)
Theorem timeseries_samples_events (sched : list event) (st : run_state) :
  exec_ sched init_ = Some st -> sampled_from_events st.
Proof.
  apply (exec_invariant url method total progress_callback sampled_from_events).
  - intros e s s' H Hs. eapply step_sampled; eassumption.
  - unfold sampled_from_events. simpl. split; [|split].
    + intros pt Hpt. now apply elem_of_nil in Hpt.
    + intros i a b Ha. discriminate.
    + lia.
Qed.

(** *** The last event *)

Lemma reachable_events (cb : callback) (sched : list event) (st : run_state) :
  progress_callback = Some cb ->
  exec_ sched init_ = Some st -> events_describe total st.
Proof.
  intros Hcb Hex.
  assert (Hinv : consistent total concurrency st /\ events_describe total st);
    [|apply Hinv].
  revert Hex.
  apply (exec_invariant url method total progress_callback
           (fun x => consistent total concurrency x /\ events_describe total x)).
  - intros e s s' [Hs Hev] Hstep. split.
    + eapply step_consistent; eassumption.
    + apply (step_events url method total progress_callback cb e s s' Hcb);
        [apply Hs | exact Hev | exact Hstep].
  - split; [apply init_consistent|]. split; [reflexivity|].
    intros k ev Hk. discriminate.
Qed.

(** X13. When all workers of a run with a callback have returned, the last
    event emitted says completed = total = the number of requests, and one
    event was emitted per request. *)
Theorem last_event_is_complete (sched : list event) (st : run_state) :
  progress_callback <> None -> 1 <= total ->
  exec_ sched init_ = Some st -> gather_poll st = GatherDone ->
  Z.of_nat (length (emitted st)) = total
  /\ exists ev, last (emitted st) = Some ev
       /\ Z.of_nat (ev_completed ev) = total /\ ev_total ev = total.
Proof.
  intros Hne Hn Hex Hd.
  assert (exists cb, progress_callback = Some cb) as [cb Hcb]
    by (destruct progress_callback; [eauto | congruence]).
  destruct (reachable_events cb sched st Hcb Hex) as [Hlen Hev].
  destruct (reachable_consistent url method total concurrency progress_callback
              sched st Hex) as [_ _ Hres _ Htasks].
  destruct (done_counts st Hd) as [_ Ea].
  assert (Hl : length (emitted st) = Z.to_nat total) by lia.
  split; [lia|].
  destruct (last (emitted st)) as [ev|] eqn:El.
  - exists ev. split; [reflexivity|]. rewrite last_lookup in El.
    destruct (Hev _ _ El) as (Hc & Ht & _). split; [lia | exact Ht].
  - apply last_None in El. rewrite El in Hl. simpl in Hl. lia.
Qed.

(** *** More permits than requests *)

Lemma count_tasks_lt (f : task_state -> bool) (l : list task_state) (i : nat)
    (t : task_state) :
  l !! i = Some t -> f t = false -> (count_tasks f l < length l)%nat.
Proof.
  unfold count_tasks, weigh. revert i.
  induction l as [|x l IH]; intros [|i]; simpl; try discriminate.
  - intros [= ->] ->. pose proof (count_tasks_le f l) as H.
    unfold count_tasks, weigh in H. lia.
  - intros Hi Ht. specialize (IH i Hi Ht). destruct (f x); lia.
Qed.

(** X14. With at least as many permits as requests nobody queues: in every
    state of the run a worker that has not started can start at once. *)
Theorem enough_permits_no_queue (sched : list event) (st : run_state)
    (i : nat) (start : Q) :
  total <= concurrency ->
  exec_ sched init_ = Some st -> tasks st !! i = Some Waiting ->
  exists st', step_ (Acquire i start) st = Some st'
              /\ tasks st' !! i = Some (InFlight start).
Proof.
  intros Hc Hex Hi.
  destruct (reachable_consistent url method total concurrency progress_callback
              sched st Hex) as [_ _ _ Hp Hlen].
  pose proof (count_tasks_lt started (tasks st) i Waiting Hi eq_refl) as Hlt.
  assert (Hm : (count_tasks holds_permit (tasks st)
                <= count_tasks started (tasks st))%nat).
  { apply count_tasks_mono. now intros []. }
  simpl. rewrite Hi.
  destruct (Nat.ltb_spec 0 (sem_value st)) as [_|Hs]; [|lia].
  eexists. split; [reflexivity|]. simpl.
  apply list_lookup_insert_eq. now apply lookup_lt_Some in Hi.
Qed.

(** *** The calls of the transport *)

Lemma count_started_split (l : list task_state) :
  count_tasks started l
  = (count_tasks answered l + count_tasks in_flight l)%nat.
Proof.
  unfold count_tasks, weigh. induction l as [|x l IH]; simpl; [reflexivity|].
  rewrite IH. destruct x; simpl; lia.
Qed.

(** X15. Whatever happens, a raising callback included, the transport is
    called at most once per request and always with the configured method
    and URL; the calls made are the outcomes recorded plus the calls still
    in flight. *)
Theorem transport_calls_are_the_requests (sched : list event) (st : run_state) :
  exec_ sched init_ = Some st ->
  (length (sent st) <= Z.to_nat total)%nat
  /\ length (sent st)
     = (length (results st) + count_tasks in_flight (tasks st))%nat
  /\ Forall (fun c => c = (method, url)) (sent st).
Proof.
  intros Hex.
  destruct (reachable_consistent url method total concurrency progress_callback
              sched st Hex) as [_ Hs Hr _ Hlen].
  pose proof (count_tasks_le started (tasks st)).
  pose proof (count_started_split (tasks st)).
  split; [lia|]. split; [lia|].
  revert Hex.
  apply (exec_invariant url method total progress_callback
           (fun x => Forall (fun c => c = (method, url)) (sent x))).
  - intros e s s' Hall Hstep.
    destruct (step_inv url method total progress_callback e s s' Hstep)
      as [(i & start & -> & Hi & Hsem & ->)
         |[(i & start & r & t & now & now' & -> & Hi & ->)
          |(i & r & -> & Hi & ->)]]; try exact Hall.
    + simpl. apply Forall_app. split; [exact Hall | now constructor].
    + unfold worker_resume. now destruct progress_callback.
  - constructor.
Qed.

(** *** Latencies *)

Lemma clock_sane_later (now now' : Q) (st : run_state) :
  (now <= now')%Q -> clock_sane now st -> clock_sane now' st.
Proof.
  intros Hle [Ht Hr]. split; [|exact Hr].
  eapply Forall_impl; [exact Ht|]. intros [] H; try exact I. simpl in *. lra.
Qed.

Lemma exec_clock_sane (sched : list event) (now : Q) (st st' : run_state) :
  monotone_from now sched -> clock_sane now st ->
  exec_ sched st = Some st' ->
  Forall (fun r => (0 <= elapsed_ms r)%Q) (results st').
Proof.
  revert now st. induction sched as [|e sched IH]; intros now st Hm Hs Hex.
  - simpl in Hex. inversion Hex; subst. apply Hs.
  - simpl in Hex. destruct (step_ e st) as [st1|] eqn:E; [|discriminate].
    destruct (step_inv url method total progress_callback e st st1 E)
      as [(i & start & -> & Hi & Hsem & ->)
         |[(i & start & r & t & now1 & now2 & -> & Hi & ->)
          |(i & r & -> & Hi & ->)]]; simpl in Hm.
    + destruct Hm as [Hle Hm]. eapply (IH start); [exact Hm | | exact Hex].
      destruct (clock_sane_later now start st Hle Hs) as [Ht Hr].
      split; [|exact Hr]. simpl. apply Forall_insert; [exact Ht|]. simpl. lra.
    + destruct Hm as [Hle Hm]. eapply (IH t); [exact Hm | | exact Hex].
      destruct Hs as [Ht Hr].
      assert (Hstart : (start <= now)%Q).
      { rewrite Forall_lookup in Ht. apply (Ht i _ Hi). }
      assert (Hel : (0 <= (t - start) * 1000)%Q) by nra.
      destruct (clock_sane_later now t st Hle (conj Ht Hr)) as [Ht' _].
      unfold worker_resume. destruct progress_callback; split; simpl;
        try (apply Forall_insert; [exact Ht' | exact I]);
        (apply Forall_app; split; [exact Hr|]; constructor; [|constructor];
         destruct r; exact Hel).
    + eapply (IH now); [exact Hm | | exact Hex]. destruct Hs as [Ht Hr].
      split; [|exact Hr]. simpl. apply Forall_insert; [exact Ht|].
      now destruct r.
Qed.

(** X16. If the readings of [perf_counter()] never go back along the run,
    no recorded latency is negative: the timer of a request starts when
    it gets its permit and stops when the transport call is over. *)
Theorem latencies_are_nonnegative (sched : list event) (st : run_state) (t0 : Q) :
  monotone_from t0 sched ->
  exec_ sched init_ = Some st ->
  Forall (fun r => (0 <= elapsed_ms r)%Q) (results st).
Proof.
  intros Hm Hex. apply (exec_clock_sane sched t0 init_ st Hm); [|exact Hex].
  split; [|constructor]. simpl. apply Forall_replicate. exact I.
Qed.

End RunFurther2.

Lemma timeseries_samples_events_witness :
  exists st,
    exec demo_url "GET" 2 (Some quiet_callback) two_requests_with_callback
         (init 2 2) = Some st
    /\ sampled_from_events st.
Proof.
  destruct (exec demo_url "GET" 2 (Some quiet_callback)
                 two_requests_with_callback (init 2 2)) as [st|] eqn:E;
    [|vm_compute in E; discriminate].
  exists st. split; [reflexivity|].
  apply (timeseries_samples_events demo_url "GET" 2 2 (Some quiet_callback)
           two_requests_with_callback st E).
Defined.

Lemma last_event_is_complete_witness :
  exists st,
    exec demo_url "GET" 2 (Some quiet_callback) two_requests_with_callback
         (init 2 2) = Some st
    /\ Z.of_nat (length (emitted st)) = 2.
Proof.
  destruct (exec demo_url "GET" 2 (Some quiet_callback)
                 two_requests_with_callback (init 2 2)) as [st|] eqn:E;
    [|vm_compute in E; discriminate].
  exists st. split; [reflexivity|].
  apply (last_event_is_complete demo_url "GET" 2 2 (Some quiet_callback)
           two_requests_with_callback st); [discriminate | lia | exact E |].
  vm_compute in E. injection E as <-. reflexivity.
Defined.

Lemma enough_permits_no_queue_witness :
  exists st st',
    exec demo_url "GET" 2 None [Acquire 0 0] (init 2 2) = Some st
    /\ step demo_url "GET" 2 None (Acquire 1 0.001) st = Some st'.
Proof.
  destruct (exec demo_url "GET" 2 None [Acquire 0 0] (init 2 2)) as [st|] eqn:E;
    [|vm_compute in E; discriminate].
  destruct (enough_permits_no_queue demo_url "GET" 2 2 None [Acquire 0 0] st
              1%nat 0.001) as (st' & Hs & _); [lia | exact E | |].
  - vm_compute in E. injection E as <-. reflexivity.
  - exists st, st'. now split.
Defined.

Lemma transport_calls_are_the_requests_witness :
  exists st,
    exec demo_url "GET" 2 None two_requests (init 2 1) = Some st
    /\ (length (sent st) <= 2)%nat.
Proof.
  destruct (exec demo_url "GET" 2 None two_requests (init 2 1)) as [st|] eqn:E;
    [|vm_compute in E; discriminate].
  exists st. split; [reflexivity|].
  apply (transport_calls_are_the_requests demo_url "GET" 2 1 None two_requests st E).
Defined.

Lemma latencies_are_nonnegative_witness :
  exists st,
    exec demo_url "GET" 2 None two_requests (init 2 1) = Some st
    /\ Forall (fun r => (0 <= elapsed_ms r)%Q) (results st).
Proof.
  destruct (exec demo_url "GET" 2 None two_requests (init 2 1)) as [st|] eqn:E;
    [|vm_compute in E; discriminate].
  exists st. split; [reflexivity|].
  apply (latencies_are_nonnegative demo_url "GET" 2 1 None two_requests st 0);
    [|exact E].
  simpl. repeat split; vm_compute; discriminate.
Defined.

(** ** The command line *)

Lemma run_load_test_traced_fst (url method : string) (n c : Z)
    (cb : option callback) (env : environment) :
  fst (run_load_test_traced url method n c cb env) = run_load_test url method n c cb env.
Proof.
  unfold run_load_test_traced, run_load_test.
  destruct (c <? 0); [reflexivity|].
  now destruct (gather url method n cb (schedule env) (init n c)).
Qed.

(** What [debug_progress] has printed when all workers have returned. *)
Lemma progress_lines_of_run (url method : string) (n c : Z)
    (sched : list event) (st : run_state) :
  exec url method n (Some debug_progress) sched (init n c) = Some st ->
  gather_poll st = GatherDone ->
  map debug_progress_line (emitted st)
  = map (fun k => progress_line k n) (seq 1 (Z.to_nat n)).
Proof.
  intros Hex Hd.
  destruct (reachable_events url method n c (Some debug_progress) debug_progress
              sched st eq_refl Hex) as [Hlen Hev].
  destruct (reachable_consistent url method n c (Some debug_progress) sched st Hex)
    as [_ _ Hres _ Htasks].
  destruct (done_counts st Hd) as [_ Ea].
  assert (Hl : length (emitted st) = Z.to_nat n) by lia.
  apply list_eq. intros k. rewrite !list_lookup_fmap.
  destruct (emitted st !! k) as [ev|] eqn:E.
  - destruct (Hev k ev E) as (Hc & Ht & _).
    apply lookup_lt_Some in E.
    rewrite lookup_seq_lt by lia. simpl.
    unfold debug_progress_line. now rewrite Hc, Ht.
  - apply lookup_ge_None in E.
    rewrite (proj2 (lookup_ge_None _ _)); [reflexivity|].
    rewrite length_seq. lia.
Qed.

(** X17. [main] never prints the results.  Whenever the run returns, [main]
    has printed one line "Progress: k / n" per request, for k = 1 .. n in
    this order, then the banner, and then raises KeyError: the dict
    returned by [run_load_test] has the keys "summary" and "timeseries", and
    [main] looks up "total_time_seconds" in it. *)
Theorem main_raises_key_error (py_upper : string -> string)
    (report : pyvalue -> list string -> main_outcome)
    (args : Args) (env : environment) (r : LoadTestResult) :
  run_load_test (arg_url args) (py_upper (arg_method args)) (arg_requests args)
                (arg_concurrency args) (Some debug_progress) env = Returned r ->
  main py_upper report args env
  = MainRaise (KeyError "total_time_seconds")
      (map (fun k => progress_line k (arg_requests args))
           (seq 1 (Z.to_nat (arg_requests args)))
       ++ [banner]).
Proof.
  intros Hr. unfold main.
  pose proof (run_load_test_traced_fst (arg_url args) (py_upper (arg_method args))
                (arg_requests args) (arg_concurrency args)
                (Some debug_progress) env) as Hfst.
  rewrite Hr in Hfst.
  unfold run_load_test_traced in *.
  destruct (arg_concurrency args <? 0); [discriminate|].
  destruct (gather _ _ _ _ _ _) as [st|st|st|] eqn:G; try discriminate.
  simpl in Hfst. rewrite Hfst.
  change (result_dict r !! "total_time_seconds"%string) with (@None pyvalue).
  cbv iota beta zeta.
  destruct (gather_reaches _ _ _ _ _ _ st (or_introl G)) as (pre & Hpre & _).
  rewrite (progress_lines_of_run _ _ _ _ pre st Hpre); [reflexivity|].
  eapply gather_return_done. exact G.
Qed.

Lemma main_raises_key_error_witness :
  exists r,
    run_load_test demo_url "GET" 1 1 (Some debug_progress)
      (mkEnv 0 (one_request ++ [CallbackDone 0]) 1) = Returned r
    /\ main (fun s => s) (fun _ out => MainReturn out)
            (mkArgs demo_url "GET" 1 1)
            (mkEnv 0 (one_request ++ [CallbackDone 0]) 1)
       = MainRaise (KeyError "total_time_seconds") ["Progress: 1 / 1"%string; banner].
Proof.
  destruct (run_load_test demo_url "GET" 1 1 (Some debug_progress)
              (mkEnv 0 (one_request ++ [CallbackDone 0]) 1))
    as [r| | | | |] eqn:E; try (vm_compute in E; discriminate).
  exists r. split; [reflexivity|].
  apply (main_raises_key_error (fun s => s) (fun _ out => MainReturn out)
           (mkArgs demo_url "GET" 1 1) _ r E).
Defined.

(** ** Requests that passed the schema *)

(** X18. A payload the schema accepts has an allowed method, between 1 and
    1000 requests and between 1 and 200 permits (GET, 50 and 10 when
    absent); the run it leads to never fails on the semaphore, takes at most
    3000 steps, never has more than 200 requests in flight nor more than
    1000 sent, and is never stuck before [gather] is over. *)
Theorem validated_request_runs (http_url : string -> option string)
    (raw : RawRequest) (req : LoadTestRequest) :
  validate http_url raw = Some req ->
  In (req_method req) allowed_methods
  /\ 1 <= req_total_requests req <= 1000
  /\ 1 <= req_concurrency req <= 200
  /\ req_method req = default "GET"%string (raw_method raw)
  /\ req_total_requests req = default 50 (raw_total_requests raw)
  /\ req_concurrency req = default 10 (raw_concurrency raw)
  /\ (forall cb env, run_test_job req cb env <> RaisedValueError)
  /\ (forall cb sched st,
        exec (req_url req) (req_method req) (req_total_requests req) (Some cb)
             sched (init (req_total_requests req) (req_concurrency req)) = Some st ->
        (length sched <= 3000)%nat
        /\ (count_tasks in_flight (tasks st) <= 200)%nat
        /\ (length (sent st) <= 1000)%nat
        /\ (gather_poll st = GatherPending ->
            exists e st',
              step (req_url req) (req_method req) (req_total_requests req)
                   (Some cb) e st = Some st')).
Proof.
  unfold validate. destruct (http_url (raw_url raw)) as [u|]; [|discriminate].
  destruct (bool_decide _ && _ && _ && _ && _) eqn:E; [|discriminate].
  intros [= <-]. cbn [req_url req_method req_total_requests req_concurrency].
  repeat (apply andb_prop in E as [E ?]).
  apply bool_decide_eq_true in E. apply list_elem_of_In in E.
  set (m := default "GET"%string (raw_method raw)) in *.
  set (n := default 50 (raw_total_requests raw)) in *.
  set (c := default 10 (raw_concurrency raw)) in *.
  split; [exact E|]. split; [lia|]. split; [lia|].
  split; [reflexivity|]. split; [reflexivity|]. split; [reflexivity|]. split.
  - intros cb env. unfold run_test_job, run_load_test. simpl.
    destruct (Z.ltb_spec c 0); [lia|].
    destruct (gather _ _ _ _ _ _); [destruct (aggregate _ _)| | |]; discriminate.
  - intros cb sched st Hex.
    pose proof (reachable_consistent u m n c (Some cb) sched st Hex) as Hcons.
    pose proof (exec_work u m n (Some cb) sched _ _ Hex) as Hw.
    rewrite init_work in Hw.
    destruct Hcons as [Hc Hs Hr Hp Hl].
    pose proof (count_tasks_mono in_flight holds_permit (tasks st)) as Hm.
    pose proof (count_tasks_le started (tasks st)) as Hle.
    split; [lia|]. split.
    + assert (count_tasks in_flight (tasks st)
              <= count_tasks holds_permit (tasks st))%nat; [|lia].
      apply Hm. now intros [].
    + split; [lia|]. intros Hpoll.
      apply (progress u m n c (Some cb) st); [now split | lia | exact Hpoll].
Qed.

Lemma validated_request_runs_witness :
  exists req,
    validate (fun u => Some u) (mkRaw demo_url None None None None) = Some req
    /\ req_method req = "GET"%string
    /\ req_total_requests req = 50 /\ req_concurrency req = 10.
Proof.
  eexists. split; [reflexivity|].
  destruct (validated_request_runs (fun u => Some u)
              (mkRaw demo_url None None None None) _ eq_refl)
    as (_ & _ & _ & H1 & H2 & H3 & _).
  now repeat split.
Defined.

(** ** The ends of the scale *)

Lemma least_unique (l : list Q) (a b : Q) :
  In a l -> In b l -> List.Forall (Qle a) l -> List.Forall (Qle b) l -> Qeq a b.
Proof.
  intros Ha Hb Hla Hlb. rewrite List.Forall_forall in Hla, Hlb.
  apply Qle_antisym; auto.
Qed.

Lemma greatest_unique (l : list Q) (a b : Q) :
  In a l -> In b l ->
  List.Forall (fun x => (x <= a)%Q) l -> List.Forall (fun x => (x <= b)%Q) l ->
  Qeq a b.
Proof.
  intros Ha Hb Hla Hlb. rewrite List.Forall_forall in Hla, Hlb.
  apply Qle_antisym; auto.
Qed.

Lemma sorted_nth_in (l : list Q) (i : nat) :
  (i < length l)%nat -> In (nth i (sorted l) 0%Q) l.
Proof.
  intros Hi. apply (Permutation_in _ (Permutation_sym (sorted_perm l))).
  apply nth_In. now rewrite length_sorted.
Qed.

Lemma sorted_first_least (l : list Q) :
  l <> [] -> List.Forall (Qle (nth 0 (sorted l) 0%Q)) l.
Proof.
  intros Hne. apply List.Forall_forall. intros x Hx.
  apply (Permutation_in _ (sorted_perm l)) in Hx.
  apply (In_nth _ _ 0%Q) in Hx as (j & Hj & <-).
  apply sorted_nth_le; [apply sorted_Sorted | lia].
Qed.

Lemma sorted_last_greatest (l : list Q) :
  l <> [] ->
  List.Forall (fun x => (x <= nth (pred (length l)) (sorted l) 0)%Q) l.
Proof.
  intros Hne. apply List.Forall_forall. intros x Hx.
  apply (Permutation_in _ (sorted_perm l)) in Hx.
  apply (In_nth _ _ 0%Q) in Hx as (j & Hj & <-).
  rewrite length_sorted in Hj.
  apply sorted_nth_le; [apply sorted_Sorted | rewrite length_sorted; lia].
Qed.

(** X20. On a non-empty list rank 0 gives the minimum and rank 100 the
    maximum of the latencies, the same numbers as [min] and [max] give. *)
Theorem percentile_extremes (latencies : list Q) :
  latencies <> [] ->
  exists v0 v100,
    percentile latencies 0 = Ok v0 /\ percentile latencies 100 = Ok v100
    /\ Qeq v0 (py_min latencies) /\ Qeq v100 (py_max latencies).
Proof.
  intros Hne.
  assert (H0 : (0 <= 0)%Q) by apply Qle_refl.
  assert (H100 : (0 <= 100)%Q) by (vm_compute; discriminate).
  assert (H100' : (100 <= 100)%Q) by apply Qle_refl.
  rewrite !percentile_in_range by assumption.
  eexists _, _. split; [reflexivity|]. split; [reflexivity|].
  destruct (py_min_spec latencies Hne) as [Hmin_in Hmin].
  destruct (py_max_spec latencies Hne) as [Hmax_in Hmax].
  assert (Hlen : (0 < length latencies)%nat).
  { destruct latencies; [congruence | simpl; lia]. }
  split.
  - transitivity (nth 0 (sorted latencies) 0%Q).
    + destruct (percentile_spec_cases latencies 0 Hne H0 H100)
        as (Hf & Hk0 & Hk1 & Hcase).
      set (n := Z.of_nat (length latencies)) in *.
      assert (Hk : Qeq (inject_Z (n - 1) * (0 / 100)) 0).
      { assert (E0 : Qeq (0 / 100) 0) by reflexivity. rewrite E0. apply Qmult_0_r. }
      assert (Ef : Qfloor (inject_Z (n - 1) * (0 / 100)) = 0).
      { rewrite Hk. reflexivity. }
      rewrite Ef in Hcase.
      destruct Hcase as [[_ ->]|[_ ->]]; [reflexivity|].
      rewrite Hk. cbn [Z.to_nat Z.add]. change (inject_Z (0 + 1)) with 1%Q.
      change (inject_Z 0) with 0%Q. change (Z.to_nat 0) with 0%nat. lra.
    + apply (least_unique latencies); try assumption.
      * apply sorted_nth_in. lia.
      * now apply sorted_first_least.
  - transitivity (nth (pred (length latencies)) (sorted latencies) 0%Q).
    + destruct (percentile_spec_cases latencies 100 Hne H100 H100')
        as (Hf & Hk0 & Hk1 & Hcase).
      set (n := Z.of_nat (length latencies)) in *.
      assert (Hk : Qeq (inject_Z (n - 1) * (100 / 100)) (inject_Z (n - 1))).
      { assert (E1 : Qeq (100 / 100) 1) by reflexivity. rewrite E1. apply Qmult_1_r. }
      assert (Ef : Qfloor (inject_Z (n - 1) * (100 / 100)) = n - 1).
      { rewrite Hk. apply Qfloor_Z. }
      rewrite Ef in Hcase.
      destruct Hcase as [[_ ->]|[Hlt _]]; [|lia].
      replace (Z.to_nat (n - 1)) with (pred (length latencies)) by lia.
      reflexivity.
    + apply (greatest_unique latencies); try assumption.
      * apply sorted_nth_in. lia.
      * now apply sorted_last_greatest.
Qed.

Lemma percentile_extremes_witness :
  exists v0 v100,
    percentile [30; 10; 20]%Q 0 = Ok v0 /\ percentile [30; 10; 20]%Q 100 = Ok v100
    /\ Qeq v0 (py_min [30; 10; 20]%Q) /\ Qeq v100 (py_max [30; 10; 20]%Q).
Proof. apply percentile_extremes. discriminate. Defined.
